(** * Address normalisation and geocoding resolution of [scripts/create_map.py]

    A shallow embedding of the functions [fetch_coffee_shops],
    [format_address], [geocode_address] and the record loop of
    [add_coffee_shop_markers], together with the properties of the
    specification that concern them.

    Python [str] values are modelled by [string]; the embedding covers
    addresses made of ASCII characters (code points below 128), for which
    [str.strip], [str.upper], [str.lower], [str.isdigit] and the regular
    expression classes [\s] and [\d] are given below exactly as Python
    defines them.  Python [float] values are Rocq's binary64 floats. *)

From Stdlib Require Import PrimFloat.
From Stdlib Require Import Ascii String List Arith Lia Bool.
From Stdlib Require Import DecimalString.
From stdpp Require Import gmap strings.
Import ListNotations.

#[local] Set Warnings "-inexact-float".
#[local] Arguments String.append !_ _ / : simpl nomatch.

#[local] Open Scope string_scope.
#[local] Open Scope list_scope.
#[local] Open Scope nat_scope.

(** ** Python string primitives *)

Module Py.

(** The strings the embedding is about: every character is an ASCII
    character (code point below 128).  On these the definitions of this
    module are Python's; on other characters Python's [str.isspace],
    [str.isdigit], [str.upper] and [str.lower] follow the Unicode tables
    and are not what is defined here. *)
Definition is_ascii_char (c : ascii) : bool := nat_of_ascii c <? 128.

Fixpoint is_ascii (s : string) : bool :=
  match s with
  | EmptyString => true
  | String c s' => is_ascii_char c && is_ascii s'
  end.

(** [c.isspace()] on ASCII: TAB, LF, VT, FF, CR, the four separators
    FS, GS, RS, US and the space. *)
Definition isspace (c : ascii) : bool :=
  let n := nat_of_ascii c in
  ((9 <=? n) && (n <=? 13)) || ((28 <=? n) && (n <=? 32)).

(** [c.isdigit()] on ASCII. *)
Definition isdigit (c : ascii) : bool :=
  let n := nat_of_ascii c in (48 <=? n) && (n <=? 57).

Definition isupper (c : ascii) : bool :=
  let n := nat_of_ascii c in (65 <=? n) && (n <=? 90).

Definition islower (c : ascii) : bool :=
  let n := nat_of_ascii c in (97 <=? n) && (n <=? 122).

Definition isalpha (c : ascii) : bool := isupper c || islower c.

Definition upper_char (c : ascii) : ascii :=
  if islower c then ascii_of_nat (nat_of_ascii c - 32) else c.

Definition lower_char (c : ascii) : ascii :=
  if isupper c then ascii_of_nat (nat_of_ascii c + 32) else c.

Fixpoint map_chars (f : ascii -> ascii) (s : string) : string :=
  match s with
  | EmptyString => EmptyString
  | String c s' => String (f c) (map_chars f s')
  end.

(** [s.upper()] and [s.lower()] for an ASCII string [s] ([is_ascii]):
    the letters [a-z], respectively [A-Z], are mapped and every other
    ASCII character is kept.  Outside ASCII Python maps more characters,
    some of them to ASCII letters or to more than one character; such
    strings are not covered. *)
Definition upper : string -> string := map_chars upper_char.
Definition lower : string -> string := map_chars lower_char.

(** [s.lstrip()], [s.rstrip()], [s.strip()]. *)
Fixpoint lstrip (s : string) : string :=
  match s with
  | EmptyString => EmptyString
  | String c s' => if isspace c then lstrip s' else s
  end.

Fixpoint rstrip (s : string) : string :=
  match s with
  | EmptyString => EmptyString
  | String c s' =>
      match rstrip s' with
      | EmptyString => if isspace c then EmptyString else String c EmptyString
      | r => String c r
      end
  end.

Definition strip (s : string) : string := rstrip (lstrip s).

(** [s.startswith(p)]. *)
Fixpoint startswith (p s : string) : bool :=
  match p, s with
  | EmptyString, _ => true
  | String a p', String b s' => Ascii.eqb a b && startswith p' s'
  | String _ _, EmptyString => false
  end.

(** [s.find(p)]: index of the first occurrence, [None] for Python's [-1]. *)
Fixpoint find (p s : string) : option nat :=
  if startswith p s then Some 0
  else match s with
       | EmptyString => None
       | String _ s' => option_map S (find p s')
       end.

(** [p in s]. *)
Definition contains (p s : string) : bool :=
  match find p s with Some _ => true | None => false end.

(** [s[:n]] and [s[n:]] for [n >= 0]. *)
Fixpoint take (n : nat) (s : string) : string :=
  match n, s with
  | S n', String c s' => String c (take n' s')
  | _, _ => EmptyString
  end.

Fixpoint drop (n : nat) (s : string) : string :=
  match n, s with
  | S n', String _ s' => drop n' s'
  | _, _ => s
  end.

(** [s[-n:]] for [n > 0]. *)
Definition last_chars (n : nat) (s : string) : string :=
  drop (String.length s - n) s.

(** [s[i]] for [0 <= i]. *)
Definition char_at (i : nat) (s : string) : option ascii := String.get i s.

(** [any(f(ch) for ch in s)]. *)
Fixpoint any_char (f : ascii -> bool) (s : string) : bool :=
  match s with
  | EmptyString => false
  | String c s' => f c || any_char f s'
  end.

(** [s.replace(old, new)] for a non-empty [old]: the occurrences of [old]
    are replaced from left to right without overlap.  [skip] counts the
    characters of a replaced occurrence that are still to be passed over. *)
Fixpoint replace_from (old new : string) (skip : nat) (s : string) : string :=
  match s with
  | EmptyString => EmptyString
  | String c s' =>
      match skip with
      | S k => replace_from old new k s'
      | O =>
          if startswith old s
          then new +:+ replace_from old new (String.length old - 1) s'
          else String c (replace_from old new 0 s')
      end
  end.

Definition replace (old new s : string) : string := replace_from old new 0 s.

(** [s.split(p)[0]] and [s.split(p)[1]] when [p in s]. *)
Definition split_head (p s : string) : string :=
  match find p s with
  | Some i => take i s
  | None => s
  end.

Definition split_second (p s : string) : option string :=
  match find p s with
  | Some i =>
      let rest := drop (i + String.length p) s in
      Some (match find p rest with Some j => take j rest | None => rest end)
  | None => None
  end.

(** [str(n)] for a natural number. *)
Definition str_of_nat (n : nat) : string :=
  NilZero.string_of_uint (Nat.to_uint n).

(** Truth value of a string: [bool(s)]. *)
Definition truthy (s : string) : bool :=
  match s with EmptyString => false | _ => true end.

(** [a or b] on strings. *)
Definition or_else (a b : string) : string := if truthy a then a else b.

End Py.

(** ** The address normaliser: [format_address] *)

(** The [suite_patterns] table of [format_address]: token and replacement. *)
Definition format_suite_patterns : list (string * string) :=
  [ ("Suite ", ", Suite ");
    ("Ste ", ", Ste ");
    ("STE ", ", STE ");
    ("Unit ", ", Unit ");
    ("UNIT ", ", UNIT ");
    ("#", ", #") ].

(** One iteration of the loop over [suite_patterns]. *)
Definition suite_comma_step (formatted : string) (pr : string * string) : string :=
  let '(pattern, replacement) := pr in
  if Py.contains pattern formatted
     && negb (Py.contains (", " +:+ pattern) formatted)
     && negb (Py.contains ("," +:+ pattern) formatted)
  then
    match Py.find pattern formatted with
    | Some pos =>
        if 0 <? pos then
          match Py.char_at (pos - 1) formatted with
          | Some char_before =>
              if negb (Ascii.eqb char_before "," || Ascii.eqb char_before " ")
              then Py.take pos formatted +:+ replacement
                     +:+ Py.drop (pos + String.length pattern) formatted
              else if Ascii.eqb char_before " "
              then Py.take (pos - 1) formatted +:+ replacement
                     +:+ Py.drop (pos + String.length pattern) formatted
              else formatted
          | None => formatted
          end
        else formatted
    | None => formatted
    end
  else formatted.

(** The whole loop (rule 2 of the normaliser). *)
Definition suite_commas (formatted : string) : string :=
  fold_left suite_comma_step format_suite_patterns formatted.

(** "Add Kentucky if not present" (rule 3). *)
Definition add_state (formatted : string) : string :=
  if negb (Py.contains "KY" (Py.upper formatted))
     && negb (Py.contains "KENTUCKY" (Py.upper formatted))
  then formatted +:+ ", KY"
  else formatted.

(** "If no ZIP code and we have county info, try to add it" (rule 4). *)
Definition add_county (county formatted : string) : string :=
  if negb (Py.any_char Py.isdigit (Py.last_chars 10 formatted)) && Py.truthy county
  then
    if Py.contains ", KY" formatted
    then Py.replace ", KY" (", " +:+ county +:+ " County, KY") formatted
    else formatted
  else formatted.

Definition format_address (address county : string) : string :=
  if negb (Py.truthy address) then ""
  else add_county county (add_state (suite_commas (Py.strip address))).

(** ** Regular expressions of [geocode_address]

    The two patterns of the source only repeat character classes, so the
    syntax below has class repetition instead of a general star.  [rmatch]
    lists the remainders of the input after every way the expression can
    match a prefix, in the order in which Python's backtracking matcher
    tries them (greedy repetition: longest first); the head of the list
    is the match [re] reports. *)

Module Re.

Inductive regex : Type :=
| Class (f : ascii -> bool)          (* one character of a class *)
| Lit (s : string)                   (* literal text *)
| Cat (r1 r2 : regex)                (* r1 r2 *)
| Alt (r1 r2 : regex)                (* r1|r2 *)
| Opt (r : regex)                    (* r? *)
| Star (f : ascii -> bool)           (* [class]* *)
| Plus (f : ascii -> bool)           (* [class]+ *)
| Count (n : nat) (f : ascii -> bool) (* [class]{n} *).

Fixpoint star_rems (f : ascii -> bool) (s : string) : list string :=
  match s with
  | EmptyString => [EmptyString]
  | String c s' => if f c then star_rems f s' ++ [s] else [s]
  end.

Fixpoint count_rem (n : nat) (f : ascii -> bool) (s : string) : list string :=
  match n with
  | O => [s]
  | S n' =>
      match s with
      | String c s' => if f c then count_rem n' f s' else []
      | EmptyString => []
      end
  end.

Fixpoint rmatch (r : regex) (s : string) : list string :=
  match r with
  | Class f =>
      match s with
      | String c s' => if f c then [s'] else []
      | EmptyString => []
      end
  | Lit p => if Py.startswith p s then [Py.drop (String.length p) s] else []
  | Cat r1 r2 => flat_map (rmatch r2) (rmatch r1 s)
  | Alt r1 r2 => rmatch r1 s ++ rmatch r2 s
  | Opt r1 => rmatch r1 s ++ [s]
  | Star f => star_rems f s
  | Plus f =>
      match s with
      | String c s' => if f c then star_rems f s' else []
      | EmptyString => []
      end
  | Count n f => count_rem n f s
  end.

(** [re.search(r, s).group()]: the text of the leftmost match. *)
Fixpoint search (r : regex) (s : string) : option string :=
  match rmatch r s with
  | rest :: _ => Some (Py.take (String.length s - String.length rest) s)
  | [] =>
      match s with
      | EmptyString => None
      | String _ s' => search r s'
      end
  end.

(** [re.sub(r, '', s)]: every leftmost non-overlapping match is removed.
    [skip] counts the characters of the current match still to be dropped. *)
Fixpoint remove_from (r : regex) (skip : nat) (s : string) : string :=
  match s with
  | EmptyString => EmptyString
  | String c s' =>
      match skip with
      | S k => remove_from r k s'
      | O =>
          match rmatch r s with
          | rest :: _ =>
              match String.length s - String.length rest with
              | S k => remove_from r k s'
              | O => String c (remove_from r 0 s')
              end
          | [] => String c (remove_from r 0 s')
          end
      end
  end.

Definition remove_all (r : regex) (s : string) : string := remove_from r 0 s.

(** [\s], [\d], [[A-Za-z\s]] and [[A-Za-z0-9\-]]. *)
Definition cls_space : ascii -> bool := Py.isspace.
Definition cls_digit : ascii -> bool := Py.isdigit.
Definition cls_alpha_space (c : ascii) : bool := Py.isalpha c || Py.isspace c.
Definition cls_alnum_dash (c : ascii) : bool :=
  Py.isalpha c || Py.isdigit c || Ascii.eqb c "-".

(** [r'[A-Za-z\s]+,?\s*KY\s*\d{5}'] *)
Definition city_state_zip : regex :=
  Cat (Plus cls_alpha_space)
   (Cat (Opt (Lit ","))
    (Cat (Star cls_space)
     (Cat (Lit "KY")
      (Cat (Star cls_space) (Count 5 cls_digit))))).

(** [r',?\s*(Suite|Ste|STE|Unit|UNIT|#)\s*[A-Za-z0-9\-]+'] *)
Definition suite_fragment : regex :=
  Cat (Opt (Lit ","))
   (Cat (Star cls_space)
    (Cat (Alt (Lit "Suite") (Alt (Lit "Ste") (Alt (Lit "STE")
           (Alt (Lit "Unit") (Alt (Lit "UNIT") (Lit "#"))))))
     (Cat (Star cls_space) (Plus cls_alnum_dash)))).

End Re.

(** ** The candidate generator of [geocode_address] *)

(** Membership test of a Python list of strings: [x in l]. *)
Definition mem (x : string) (l : list string) : bool :=
  existsb (String.eqb x) l.

(** [if v not in address_attempts: address_attempts.append(v)] *)
Definition append_new (v : string) (address_attempts : list string) : list string :=
  if negb (mem v address_attempts) then address_attempts ++ [v] else address_attempts.

Definition geocode_suite_patterns : list string :=
  [ ", Suite "; ", Ste "; ", STE "; ", Unit "; ", UNIT "; ", #";
    " Suite "; " Ste "; " STE "; " Unit "; " UNIT "; " #" ].

(** The [base_address] built for one suite pattern present in the address. *)
Definition suite_base_address (address pattern : string) : string :=
  let base_address := Py.split_head pattern address in
  match Py.split_second pattern address with
  | Some after_suite =>
      match Re.search Re.city_state_zip after_suite with
      | Some city_match => base_address +:+ ", " +:+ Py.strip city_match
      | None =>
          if Py.contains "KY" after_suite
          then base_address +:+ ", " +:+ Py.strip after_suite
          else base_address
      end
  | None => base_address
  end.

Definition suite_step (address : string) (address_attempts : list string)
    (pattern : string) : list string :=
  if Py.contains pattern address
  then append_new (suite_base_address address pattern) address_attempts
  else address_attempts.

Definition no_suite_step (address : string) (address_attempts : list string)
    : list string :=
  let no_suite := Re.remove_all Re.suite_fragment address in
  if negb (String.eqb no_suite address) && negb (mem no_suite address_attempts)
  then address_attempts ++ [no_suite]
  else address_attempts.

(** The dictionary [street_abbrev_variations], in its insertion order. *)
Definition street_abbrev_variations : list (string * string) :=
  [ (" Dr ", " Drive ");
    (" Dr,", " Drive,");
    (" St ", " Street ");
    (" St,", " Street,");
    (" Ave ", " Avenue ");
    (" Ave,", " Avenue,");
    (" Rd ", " Road ");
    (" Rd,", " Road,");
    (" Blvd ", " Boulevard ");
    (" Blvd,", " Boulevard,");
    (" Cir ", " Circle ");
    (" Cir,", " Circle,") ].

Definition abbrev_step (address : string) (address_attempts : list string)
    (item : string * string) : list string :=
  let '(abbrev, full_word) := item in
  if Py.contains abbrev address
  then append_new (Py.replace abbrev full_word address) address_attempts
  else if Py.contains full_word address
  then append_new (Py.replace full_word abbrev address) address_attempts
  else address_attempts.

(** The list [address_attempts] when the request loop starts. *)
Definition address_attempts (address : string) : list string :=
  let a1 := fold_left (suite_step address) geocode_suite_patterns [address] in
  let a2 := no_suite_step address a1 in
  fold_left (abbrev_step address) street_abbrev_variations a2.

(** ** The geocoding service and the request loop of [geocode_address] *)

(** A JSON value as [response.json()] hands it over, as far as the code
    can tell values apart: [null], a boolean, a number, a string, or an
    array or object.  A number is represented by what [float] makes of
    it: [None] is an integer too large for a float ([OverflowError]). *)
Inductive json_value : Type :=
| JNull
| JBool (b : bool)
| JNumber (x : option float)
| JString (s : string)
| JCompound.

(** One element of the JSON array the service answers with: an object,
    given by the values under the three keys the code reads ([None] when
    the object has no such key), or a value that is not an object. *)
Inductive geo_match : Type :=
| GeoMatch (display_name lat lon : option json_value)
| NotAnObject.

Definition display_name (r : geo_match) : option json_value :=
  match r with GeoMatch d _ _ => d | NotAnObject => None end.

Definition lat (r : geo_match) : option json_value :=
  match r with GeoMatch _ la _ => la | NotAnObject => None end.

Definition lon (r : geo_match) : option json_value :=
  match r with GeoMatch _ _ lo => lo | NotAnObject => None end.

(** What one GET request can end in: [requests.RequestException]
    (connection failure, time-out, HTTP error status); a body that
    [response.json()] rejects; a decoded body that is not an array
    ([if results] is false for [null], [false], [0], [""] and [{}], and
    for any other such value the comprehension over it raises); or a
    decoded array. *)
Inductive response : Type :=
| TransportFailure
| MalformedBody
| NotAnArray
| Matches (results : list geo_match).

Definition coordinates : Type := (float * float)%type.

(** [r.get('display_name', '')] as far as [.lower()] accepts it: the
    text, [""] when the key is absent, [None] when [r] has no [.get]
    (not an object) or the value no [.lower] (not a string), which is
    an [AttributeError]. *)
Definition display_name_text (r : geo_match) : option string :=
  match r with
  | NotAnObject => None
  | GeoMatch None _ _ => Some ""
  | GeoMatch (Some (JString d)) _ _ => Some d
  | GeoMatch (Some _) _ _ => None
  end.

(** [[r for r in results if 'kentucky' in r.get('display_name', '').lower()]];
    [None] when the comprehension raises on one of the results. *)
Fixpoint ky_results (results : list geo_match) : option (list geo_match) :=
  match results with
  | [] => Some []
  | r :: rest =>
      match display_name_text r with
      | None => None
      | Some d =>
          match ky_results rest with
          | None => None
          | Some ks =>
              Some (if Py.contains "kentucky" (Py.lower d) then r :: ks else ks)
          end
      end
  end.

(** [ky_results[0] if ky_results else results[0]], for non-empty [results]. *)
Definition best_result (first : geo_match) (rest : list geo_match) : option geo_match :=
  match ky_results (first :: rest) with
  | None => None
  | Some (k :: _) => Some k
  | Some [] => Some first
  end.

Section Resolver.

(** The external service: an arbitrary state machine answering one query
    at a time. *)
Variable service_state : Type.
Variable service : service_state -> string -> response * service_state.

(** Python's [float(s)] on a string; [None] stands for [ValueError]. *)
Variable float_of_string : string -> option float.

(** The part of the outside world the resolver acts on: the service, the
    queries sent to it so far, and the seconds spent in [time.sleep]. *)
Record world : Type := World {
  svc : service_state;
  calls : list string;
  slept : nat
}.

(** Python's [float(v)] on a value of the response: a string is parsed, a
    number converted ([OverflowError] for [None]), [True] and [False] are
    1.0 and 0.0, anything else is a [TypeError]. *)
Definition to_float (v : json_value) : option float :=
  match v with
  | JString s => float_of_string s
  | JNumber x => x
  | JBool b => Some (if b then 1%float else 0%float)
  | JNull => None
  | JCompound => None
  end.

(** [float(best_result['lat'])], [float(best_result['lon'])]: a missing
    key raises [KeyError], a value [float] rejects [ValueError],
    [TypeError] or [OverflowError]. *)
Definition parse_coordinates (best : geo_match) : option coordinates :=
  match lat best with
  | None => None
  | Some la =>
      match to_float la with
      | None => None
      | Some x =>
          match lon best with
          | None => None
          | Some lo =>
              match to_float lo with
              | None => None
              | Some y => Some (x, y)
              end
          end
      end
  end.

(** What the body of the [try] makes of a response: [Some] is the
    [return (lat, lon), None]; [None] is "No results" or one of the
    [except] branches, all of which go on with the next attempt. *)
Definition read_response (resp : response) : option coordinates :=
  match resp with
  | TransportFailure => None
  | MalformedBody => None
  | NotAnArray => None
  | Matches [] => None
  | Matches (first :: rest) =>
      match best_result first rest with
      | None => None
      | Some best => parse_coordinates best
      end
  end.

(** One iteration of the request loop. *)
Definition attempt (attempt_address : string) (w : world)
    : option coordinates * world :=
  let '(resp, s') := service (svc w) attempt_address in
  (read_response resp,
   {| svc := s'; calls := calls w ++ [attempt_address]; slept := slept w + 1 |}).

(** [for i, attempt_address in enumerate(address_attempts, 1): ...] *)
Fixpoint try_attempts (attempts : list string) (w : world)
    : option coordinates * world :=
  match attempts with
  | [] => (None, w)
  | attempt_address :: rest =>
      match attempt attempt_address w with
      | (Some c, w') => (Some c, w')
      | (None, w') => try_attempts rest w'
      end
  end.

Definition exhausted_message (n : nat) (address original_address : string) : string :=
  "All " +:+ Py.str_of_nat n +:+ " geocoding attempts failed for: "
    +:+ Py.or_else original_address address.

(** [geocode_address(address, original_address)].  The source returns the
    pair [(coordinates, error)] with exactly one component [None]:
    [inl c] stands for [((lat, lon), None)], [inr e] for [(None, e)]. *)
Definition geocode_address (address original_address : string) (w : world)
    : (coordinates + string) * world :=
  if negb (Py.truthy address) then (inr "No address provided", w)
  else
    let attempts := address_attempts address in
    match try_attempts attempts w with
    | (Some c, w') => (inl c, w')
    | (None, w') =>
        (inr (exhausted_message (List.length attempts) address original_address), w')
    end.

End Resolver.

(** ** The record ingestor: [fetch_coffee_shops]

    The download and the CSV reader are outside the model: the ingestor
    below starts from [rows = list(csv_reader)]. *)

(** The dictionary appended to [coffee_shops] for one location. *)
Record shop : Type := Shop {
  name : string;
  address : string;
  original_address : string;
  county : string;
  location_num : nat;
  row_number : nat
}.

(** [row[k].strip() if len(row) > k and row[k] else ""] *)
Definition stripped_cell (k : nat) (row : list string) : string :=
  if (k <? List.length row) && Py.truthy (nth k row "")
  then Py.strip (nth k row "")
  else "".

(** [row[0].strip() if row[0] else f"Coffee Shop {i}"] *)
Definition row_name (i : nat) (row : list string) : string :=
  if Py.truthy (nth 0 row "")
  then Py.strip (nth 0 row "")
  else "Coffee Shop " +:+ Py.str_of_nat i.

Definition mobile_keywords : list string := ["mobile"; "truck"; "cart"; "trailer"].

(** [any(keyword in name.lower() for keyword in [...])] *)
Definition is_mobile (name : string) : bool :=
  existsb (fun keyword => Py.contains keyword (Py.lower name)) mobile_keywords.

(** The lists the ingestor fills: [coffee_shops] and [mobile_trucks]. *)
Record ingest_state : Type := IngestState {
  coffee_shops : list shop;
  mobile_trucks : list string
}.

(** The body of [for i, row in enumerate(rows[1:], 1)]. *)
Definition ingest_row (i : nat) (row : list string) (st : ingest_state) : ingest_state :=
  if List.length row <? 3 then st
  else
    let name := row_name i row in
    let address1 := stripped_cell 1 row in
    let address2 := stripped_cell 2 row in
    let county := stripped_cell 5 row in
    let st1 :=
      if Py.truthy address1 then
        {| coffee_shops := coffee_shops st ++
             [ {| name := name;
                  address := format_address address1 county;
                  original_address := address1;
                  county := county;
                  location_num := 1;
                  row_number := i + 1 |} ];
           mobile_trucks := mobile_trucks st |}
      else if is_mobile name then
        {| coffee_shops := coffee_shops st;
           mobile_trucks := mobile_trucks st ++ [name] |}
      else
        {| coffee_shops := coffee_shops st ++
             [ {| name := name;
                  address := "";
                  original_address := "";
                  county := county;
                  location_num := 1;
                  row_number := i + 1 |} ];
           mobile_trucks := mobile_trucks st |}
    in
    if Py.truthy address2 then
      {| coffee_shops := coffee_shops st1 ++
           [ {| name := name +:+ " (Location 2)";
                address := format_address address2 county;
                original_address := address2;
                county := county;
                location_num := 2;
                row_number := i + 1 |} ];
         mobile_trucks := mobile_trucks st1 |}
    else st1.

(** The loop, [i] being the number [enumerate] gives to the first of [rows]. *)
Fixpoint ingest_rows (i : nat) (rows : list (list string)) (st : ingest_state)
    : ingest_state :=
  match rows with
  | [] => st
  | row :: rest => ingest_rows (S i) rest (ingest_row i row st)
  end.

(** [fetch_coffee_shops], from the parsed rows on. *)
Definition fetch_coffee_shops (rows : list (list string)) : list shop :=
  match rows with
  | [] => []
  | _header :: data => coffee_shops (ingest_rows 1 data (IngestState [] []))
  end.

(** ** The record loop of [add_coffee_shop_markers] *)

(** The table [manual_coordinates] of the source. *)
#[warnings="-inexact-float"]
Definition manual_coordinates : gmap string coordinates :=
  {[ "121 Bethel Harvest Dr Nicholasville, KY 40356" := (37.8814%float, (-84.5730)%float) ]}.

(** An entry of [failed_geocoding]. *)
Record failure : Type := Failure {
  failure_name : string;
  failure_original_address : string;
  failure_formatted_address : string;
  failure_error : string;
  failure_row : nat
}.

(** A marker put on the map: tooltip and location. *)
Record marker : Type := Marker {
  marker_name : string;
  marker_location : coordinates
}.

(** The locations [folium.Marker] accepts: its validation of
    [location=[lat, lon]] raises [ValueError] when [math.isnan] holds of
    one of the two numbers, and accepts every other pair of floats. *)
Definition locatable (c : coordinates) : bool :=
  negb (PrimFloat.is_nan (fst c) || PrimFloat.is_nan (snd c)).

Section RecordLoop.

Variable service_state : Type.
Variable service : service_state -> string -> response * service_state.
Variable float_of_string : string -> option float.

(** The override table in force; the source uses [manual_coordinates]. *)
Variable overrides : gmap string coordinates.

#[local] Abbreviation world := (world service_state).

(** The state of the loop: the three counters of the source, the markers
    added to [folium_map], the world outside, and whether an exception
    has left the loop (and with it the function, which then returns
    nothing). *)
Record loop_state : Type := LoopState {
  successful_markers : nat;
  failed_geocoding : list failure;
  manual_overrides_used : nat;
  markers : list marker;
  outside : world;
  raised : bool
}.

(** The resolution of one record: override lookup first, geocoding
    otherwise.  The result is the outcome, the new count of overrides
    used and the world afterwards. *)
Definition resolve (s : shop) (st : loop_state)
    : (coordinates + string) * nat * world :=
  match overrides !! address s with
  | Some c => (inl c, manual_overrides_used st + 1, outside st)
  | None =>
      let '(res, w') :=
        geocode_address service_state service float_of_string
          (address s) (original_address s) (outside st) in
      (res, manual_overrides_used st, w')
  end.

(** The body of [for i, shop in enumerate(coffee_shops, 1)], for a call
    with one of the HTML icon styles (the default, [coffee_emoji], is
    one), for which building the icon cannot fail; the style
    [custom_image] reads an image file and is not modelled.

    The markers are built outside any [try]: [folium.Marker] refuses
    coordinates that are not locatable with a [ValueError], which leaves
    the loop.  At that point the override counter and the requests sent
    for the record are already in the state, the marker and its count
    are not.  Once [raised] is set no further record is processed. *)
Definition marker_step (st : loop_state) (s : shop) : loop_state :=
  if raised st then st
  else if negb (Py.truthy (address s)) then st
  else
    let '(res, used, w') := resolve s st in
    match res with
    | inl c =>
        if locatable c then
          {| successful_markers := successful_markers st + 1;
             failed_geocoding := failed_geocoding st;
             manual_overrides_used := used;
             markers := markers st ++ [ {| marker_name := name s; marker_location := c |} ];
             outside := w';
             raised := false |}
        else
          {| successful_markers := successful_markers st;
             failed_geocoding := failed_geocoding st;
             manual_overrides_used := used;
             markers := markers st;
             outside := w';
             raised := true |}
    | inr error =>
        {| successful_markers := successful_markers st;
           failed_geocoding := failed_geocoding st ++
             [ {| failure_name := name s;
                  failure_original_address := original_address s;
                  failure_formatted_address := address s;
                  failure_error := error;
                  failure_row := row_number s |} ];
           manual_overrides_used := used;
           markers := markers st;
           outside := w';
           raised := false |}
    end.

(** [add_coffee_shop_markers], up to the summary: the state in which the
    loop ends.  The function returns [successful_markers] of it when
    [raised] is not set. *)
Definition add_coffee_shop_markers (shops : list shop) (w : world) : loop_state :=
  fold_left marker_step shops
    {| successful_markers := 0; failed_geocoding := [];
       manual_overrides_used := 0; markers := []; outside := w;
       raised := false |}.

End RecordLoop.

(** ** The failure report printed by [add_coffee_shop_markers] *)

(** [e.split(':')[0] if ':' in e else e] *)
Definition error_key (e : string) : string :=
  if Py.contains ":" e then Py.split_head ":" e else e.

(** [error_types]: a dictionary from error key to the failures filed under
    it, kept in insertion order. *)
Fixpoint file_failure (f : failure) (error_types : list (string * list failure))
    : list (string * list failure) :=
  match error_types with
  | [] => [(error_key (failure_error f), [f])]
  | (k, fs) :: rest =>
      if String.eqb k (error_key (failure_error f))
      then (k, fs ++ [f]) :: rest
      else (k, fs) :: file_failure f rest
  end.

Definition error_types (failed : list failure) : list (string * list failure) :=
  fold_left (fun acc f => file_failure f acc) failed [].

(** The lines ["Row {row}: {name}"] of the report, group after group. *)
Definition report_rows (failed : list failure) : list (nat * string) :=
  flat_map (fun g => map (fun f => (failure_row f, failure_name f)) (snd g))
    (error_types failed).

(** ** Auxiliary notions used in the statements *)

(** The records one data row adds to [coffee_shops]. *)
Definition yielded (i : nat) (row : list string) : list shop :=
  coffee_shops (ingest_row i row (IngestState [] [])).

(** The records of the data rows numbered from [i] on, row after row. *)
Fixpoint yielded_from (i : nat) (data : list (list string)) : list shop :=
  match data with
  | [] => []
  | row :: rest => yielded i row ++ yielded_from (S i) rest
  end.

(** First and last character of a string, and strings that [strip]
    leaves alone: neither end is a whitespace character. *)
Definition first_char (s : string) : option ascii :=
  match s with
  | EmptyString => None
  | String c _ => Some c
  end.

Fixpoint last_char (s : string) : option ascii :=
  match s with
  | EmptyString => None
  | String c s' =>
      match last_char s' with
      | Some d => Some d
      | None => Some c
      end
  end.

Definition not_space (o : option ascii) : Prop :=
  forall c, o = Some c -> Py.isspace c = false.

Definition trimmed (s : string) : Prop :=
  not_space (first_char s) /\ not_space (last_char s).


(** [p] occurs in [s]. *)
Definition occurs (p s : string) : Prop :=
  exists pre post, s = pre +:+ p +:+ post.

(** The variant strings the strategies of the candidate generator
    propose for an address, in generation order and before any
    deduplication. *)
Definition suite_variants (address : string) : list string :=
  flat_map (fun pattern =>
              if Py.contains pattern address
              then [suite_base_address address pattern] else [])
    geocode_suite_patterns.

Definition no_suite_variant (address : string) : list string :=
  let no_suite := Re.remove_all Re.suite_fragment address in
  if negb (String.eqb no_suite address) then [no_suite] else [].

Definition abbrev_variant (address : string) (item : string * string) : list string :=
  if Py.contains (fst item) address
  then [Py.replace (fst item) (snd item) address]
  else if Py.contains (snd item) address
  then [Py.replace (snd item) (fst item) address]
  else [].

Definition variants (address : string) : list string :=
  suite_variants address ++ no_suite_variant address
    ++ flat_map (abbrev_variant address) street_abbrev_variations.

(** Deduplication by exact string equality that keeps the first
    occurrence of every string, in order. *)
Fixpoint keep_first (l : list string) : list string :=
  match l with
  | [] => []
  | x :: l' => x :: List.filter (fun y => negb (String.eqb y x)) (keep_first l')
  end.

(** The match the resolver is to select, in the words of the
    specification: the first one whose display name mentions the state,
    the first one of all when none does. *)
Definition mentions_state (r : geo_match) : bool :=
  match display_name r with
  | Some (JString d) => Py.contains "kentucky" (Py.lower d)
  | _ => false
  end.

(** A match the selection can look at: an object whose display name, if
    it has one, is a string. *)
Definition named (r : geo_match) : bool :=
  match r with
  | GeoMatch None _ _ => true
  | GeoMatch (Some (JString _)) _ _ => true
  | _ => false
  end.

Definition state_preferring (first : geo_match) (rest : list geo_match) : geo_match :=
  match List.find mentions_state (first :: rest) with
  | Some k => k
  | None => first
  end.

Section ServiceRuns.

Variable service_state : Type.
Variable service : service_state -> string -> response * service_state.
Variable float_of_string : string -> option float.

(** The answers the service gives when it is sent the queries one after
    the other, starting in state [s], and the state it is left in. *)
Fixpoint responses (queries : list string) (s : service_state) : list response :=
  match queries with
  | [] => []
  | q :: rest => fst (service s q) :: responses rest (snd (service s q))
  end.

Fixpoint service_after (queries : list string) (s : service_state) : service_state :=
  match queries with
  | [] => s
  | q :: rest => service_after rest (snd (service s q))
  end.

(** The outcomes of a request that count as a failed attempt: transport
    failure, a body that is not JSON, a body that is not an array, an
    empty array, an array on which the selection raises, and an array
    whose selected match lacks a readable latitude or longitude. *)
Inductive attempt_fails : response -> Prop :=
| fails_transport : attempt_fails TransportFailure
| fails_body : attempt_fails MalformedBody
| fails_not_array : attempt_fails NotAnArray
| fails_no_match : attempt_fails (Matches [])
| fails_selection (first : geo_match) (rest : list geo_match) :
    best_result first rest = None ->
    attempt_fails (Matches (first :: rest))
| fails_fields (first : geo_match) (rest : list geo_match) (best : geo_match) :
    best_result first rest = Some best ->
    parse_coordinates float_of_string best = None ->
    attempt_fails (Matches (first :: rest)).

End ServiceRuns.

(** ** Test doubles for the examples *)

Module Mock.

Definition digit_value (c : ascii) : option float :=
  match nat_of_ascii c - 48 with
  | 0 => if Py.isdigit c then Some 0%float else None
  | 1 => Some 1%float | 2 => Some 2%float | 3 => Some 3%float
  | 4 => Some 4%float | 5 => Some 5%float | 6 => Some 6%float
  | 7 => Some 7%float | 8 => Some 8%float | 9 => Some 9%float
  | _ => None
  end.

(** Digits [d1 d2 ...] after the value [acc]; [scale] is multiplied by ten
    for every digit read once [frac] is set.  Returns value and scale. *)
Fixpoint digits (frac seen : bool) (acc scale : float) (s : string)
    : option (float * float) :=
  match s with
  | EmptyString => if seen then Some (acc, scale) else None
  | String c s' =>
      if Ascii.eqb c "." then
        if frac then None else digits true seen acc scale s'
      else
        match digit_value c with
        | Some d =>
            digits frac true (acc * 10 + d)%float
              (if frac then (scale * 10)%float else scale) s'
        | None => None
        end
  end.

(** [float(s)] on plain decimal numerals ([-12.5], [38], [0.25]) of at
    most fifteen digits, for which the quotient below is the correctly
    rounded value; every other text is rejected, as [float] rejects
    ["n/a"]. *)
Definition float_of_decimal (s : string) : option float :=
  if 15 <? String.length s then None
  else
    match s with
    | String "-" s' =>
        match digits false false 0%float 1%float s' with
        | Some (m, k) => Some (- (m / k))%float
        | None => None
        end
    | _ =>
        match digits false false 0%float 1%float s with
        | Some (m, k) => Some (m / k)%float
        | None => None
        end
    end.

(** A service without state that answers from a table of queries. *)
Definition table_service (table : list (string * response))
    (s : unit) (q : string) : response * unit :=
  (match List.find (fun e => String.eqb (fst e) q) table with
   | Some e => snd e
   | None => Matches []
   end, tt).

(** A service that is down: every request fails in transport. *)
Definition down_service (s : unit) (q : string) : response * unit :=
  (TransportFailure, tt).

Definition fresh : world unit := {| svc := tt; calls := []; slept := 0 |}.

(** A service that knows the address only with "Street" spelled out, and
    lists a namesake in another state first. *)
Definition street_only : unit -> string -> response * unit :=
  table_service
    [ ("500 W Main St, Lexington, KY 40507", Matches []);
      ("500 W Main Street, Lexington, KY 40507",
       Matches [ GeoMatch (Some (JString "West Main Street, Springfield, Ohio"))
                   (Some (JString "39.9242")) (Some (JString "-83.8088"));
                 GeoMatch (Some (JString "West Main Street, Lexington, Kentucky"))
                   (Some (JString "38.0498")) (Some (JString "-84.5004")) ]) ].

(** A service whose match for the abbreviated address has no readable
    latitude. *)
Definition unreadable_first : unit -> string -> response * unit :=
  table_service
    [ ("500 W Main St, Lexington, KY 40507",
       Matches [ GeoMatch (Some (JString "Main Street, Lexington, Kentucky"))
                   (Some (JString "n/a")) (Some (JString "-84.4970")) ]);
      ("500 W Main Street, Lexington, KY 40507",
       Matches [ GeoMatch (Some (JString "West Main Street, Lexington, Kentucky"))
                   (Some (JString "38.0498")) (Some (JString "-84.5004")) ]) ].

(** A service whose answer for the abbreviated address lists a match
    with [null] for a display name before the right one. *)
Definition nameless_first : unit -> string -> response * unit :=
  table_service
    [ ("500 W Main St, Lexington, KY 40507",
       Matches [ GeoMatch (Some JNull)
                   (Some (JString "38.0461")) (Some (JString "-84.4970"));
                 GeoMatch (Some (JString "West Main Street, Lexington, Kentucky"))
                   (Some (JString "38.0498")) (Some (JString "-84.5004")) ]);
      ("500 W Main Street, Lexington, KY 40507",
       Matches [ GeoMatch (Some (JString "West Main Street, Lexington, Kentucky"))
                   (Some (JString "38.0498")) (Some (JString "-84.5004")) ]) ].

(** A service that answers every query with one match whose coordinates
    are the text [nan], and a reader of coordinates that, like [float],
    accepts it. *)
Definition nan_service (s : unit) (q : string) : response * unit :=
  (Matches [ GeoMatch (Some (JString "Lexington, Kentucky"))
               (Some (JString "nan")) (Some (JString "nan")) ], tt).

Definition float_of_decimal_or_nan (s : string) : option float :=
  if String.eqb s "nan" then Some PrimFloat.nan else float_of_decimal s.

End Mock.

(** ** Further notions used in the statements about the whole pipeline *)

(** A string with its commas and spaces taken out. *)
Fixpoint squeeze (s : string) : string :=
  match s with
  | EmptyString => EmptyString
  | String c s' =>
      if Ascii.eqb c "," || Ascii.eqb c " " then squeeze s' else String c (squeeze s')
  end.

(** The records the marker loop does not skip, and those among them that
    the override table resolves. *)
Definition has_address (s : shop) : bool := Py.truthy (address s).

Definition overridden (overrides : gmap string coordinates) (s : shop) : bool :=
  has_address s && bool_decide (is_Some (overrides !! address s)).

(** The error key under which a failure is filed. *)
Definition failure_key (f : failure) : string := error_key (failure_error f).

(** Grouping by key, said directly: the keys in order of first
    appearance, each with the failures that have it, in their order. *)
Definition grouped (failed : list failure) : list (string * list failure) :=
  map (fun k => (k, List.filter (fun f => String.eqb (failure_key f) k) failed))
      (keep_first (map failure_key failed)).

(** * Properties *)

(** ** Sanity checks of the embedding on concrete inputs *)

Example strip_ex : Py.strip "  12 Main St  " = "12 Main St".
Proof. reflexivity. Qed.

Example replace_ex : Py.replace ", KY" ", Clark County, KY" "1 A St, KY" = "1 A St, Clark County, KY".
Proof. reflexivity. Qed.

Example str_of_nat_ex : Py.str_of_nat 12 = "12" /\ Py.str_of_nat 0 = "0".
Proof. split; reflexivity. Qed.

Example format_address_ex1 :
  format_address "2100 Buena Vista Rd Suite 1 Lexington KY 40505" "Fayette"
  = "2100 Buena Vista Rd, Suite 1 Lexington KY 40505".
Proof. reflexivity. Qed.

Example format_address_ex2 :
  format_address "100 Main St" "Fayette" = "100 Main St, Fayette County, KY".
Proof. reflexivity. Qed.

Example format_address_ex3 :
  format_address "121 Bethel Harvest Dr Nicholasville, KY 40356" "Jessamine"
  = "121 Bethel Harvest Dr Nicholasville, KY 40356".
Proof. reflexivity. Qed.

Example format_address_ex4 :
  format_address "5 Oak Rd#3, Paris" "" = "5 Oak Rd, #3, Paris, KY".
Proof. reflexivity. Qed.

Example search_ex :
  Re.search Re.city_state_zip "1 Lexington KY 40505" = Some " Lexington KY 40505".
Proof. reflexivity. Qed.

Example remove_all_ex :
  Re.remove_all Re.suite_fragment "2100 Buena Vista Rd, Suite 1 Lexington KY 40505"
  = "2100 Buena Vista Rd Lexington KY 40505".
Proof. reflexivity. Qed.

Example address_attempts_ex1 :
  address_attempts "2100 Buena Vista Rd, Suite 1 Lexington KY 40505"
  = [ "2100 Buena Vista Rd, Suite 1 Lexington KY 40505";
      "2100 Buena Vista Rd, Lexington KY 40505";
      "2100 Buena Vista Rd,, Lexington KY 40505";
      "2100 Buena Vista Rd Lexington KY 40505";
      "2100 Buena Vista Road, Suite 1 Lexington KY 40505" ].
Proof. reflexivity. Qed.

Example address_attempts_ex2 :
  address_attempts "500 W Main St, Lexington, KY 40507"
  = [ "500 W Main St, Lexington, KY 40507";
      "500 W Main Street, Lexington, KY 40507" ].
Proof. reflexivity. Qed.

Example fetch_ex :
  fetch_coffee_shops
    [ ["Name"; "Address 1"; "Address 2"; "Phone"; "Web"; "County"];
      ["Joe's Coffee"; "121 Bethel Harvest Dr Nicholasville, KY 40356"; ""; ""; ""; "Jessamine"] ]
  = [ Shop "Joe's Coffee" "121 Bethel Harvest Dr Nicholasville, KY 40356"
        "121 Bethel Harvest Dr Nicholasville, KY 40356" "Jessamine" 1 2 ].
Proof. reflexivity. Qed.

(** ** The ingestor *)

Lemma ingest_row_appends (i : nat) (row : list string) (st : ingest_state) :
  coffee_shops (ingest_row i row st) = coffee_shops st ++ yielded i row.
Proof.
  unfold yielded, ingest_row.
  destruct (List.length row <? 3); simpl; [ now rewrite app_nil_r | ].
  destruct (Py.truthy (stripped_cell 1 row)), (is_mobile (row_name i row)),
    (Py.truthy (stripped_cell 2 row)); simpl;
    rewrite ?app_nil_r, <- ?app_assoc; reflexivity.
Qed.

Lemma ingest_rows_appends (data : list (list string)) :
  forall i st,
    coffee_shops (ingest_rows i data st) = coffee_shops st ++ yielded_from i data.
Proof.
  induction data as [| row rest IH]; intros i st; simpl.
  - now rewrite app_nil_r.
  - rewrite IH, ingest_row_appends, <- app_assoc. reflexivity.
Qed.

Lemma fetch_yielded (header : list string) (data : list (list string)) :
  fetch_coffee_shops (header :: data) = yielded_from 1 data.
Proof. unfold fetch_coffee_shops. now rewrite ingest_rows_appends. Qed.

Lemma yielded_from_In (r : shop) (data : list (list string)) :
  forall i,
    In r (yielded_from i data) <->
    exists k row, nth_error data k = Some row /\ In r (yielded (i + k) row).
Proof.
  induction data as [| row rest IH]; intros i; simpl.
  - split; [ tauto | intros (k & row & Hk & _); destruct k; discriminate ].
  - rewrite in_app_iff, IH. split.
    + intros [H | (k & row' & Hk & Hr)].
      * exists 0, row. rewrite Nat.add_0_r. auto.
      * exists (S k), row'. rewrite Nat.add_succ_r. auto.
    + intros (k & row' & Hk & Hr). destruct k as [| k]; simpl in Hk.
      * injection Hk as <-. rewrite Nat.add_0_r in Hr. auto.
      * right. exists k, row'. rewrite Nat.add_succ_r in Hr. auto.
Qed.

Lemma yielded_short_row (i : nat) (row : list string) :
  List.length row < 3 -> yielded i row = [].
Proof.
  intros H. unfold yielded, ingest_row.
  apply Nat.ltb_lt in H. now rewrite H.
Qed.

(** What the ingestor reads from a row with at least three columns. *)
Lemma yielded_fields (i : nat) (row : list string) (r : shop) :
  3 <= List.length row ->
  In r (yielded i row) ->
  county r = stripped_cell 5 row /\
  row_number r = i + 1 /\
  ((location_num r = 1 /\ name r = row_name i row /\
    original_address r = stripped_cell 1 row /\
    address r = format_address (stripped_cell 1 row) (stripped_cell 5 row))
   \/
   (location_num r = 2 /\ name r = row_name i row +:+ " (Location 2)" /\
    original_address r = stripped_cell 2 row /\
    address r = format_address (stripped_cell 2 row) (stripped_cell 5 row))).
Proof.
  intros Hlen. unfold yielded, ingest_row.
  assert (Hb : (List.length row <? 3) = false) by (apply Nat.ltb_ge; lia).
  rewrite Hb.
  destruct (Py.truthy (stripped_cell 1 row)) eqn:E1,
    (is_mobile (row_name i row)), (Py.truthy (stripped_cell 2 row)) eqn:E2;
    simpl; intros Hin;
    repeat match goal with
           | H : _ \/ _ |- _ => destruct H as [H | H]
           | H : False |- _ => destruct H
           end; subst r; simpl; repeat split; auto.
  all: left; repeat split; auto.
  all: destruct (stripped_cell 1 row); [ reflexivity | discriminate ].
Qed.

Lemma yielded_row_number (i : nat) (row : list string) (r : shop) :
  In r (yielded i row) -> row_number r = i + 1.
Proof.
  intros Hin. destruct (Nat.lt_ge_cases (List.length row) 3) as [Hs | Hl].
  - rewrite (yielded_short_row i row Hs) in Hin. destruct Hin.
  - now destruct (yielded_fields i row r Hl Hin) as (_ & H & _).
Qed.

(** C8, as amended.  A data row with at least three columns adds to
    [coffee_shops]: one record for address-1 when that cell is non-empty;
    when it is empty, one record with an empty address unless the name
    has a mobile-service keyword, in which case no record is made and the
    name goes to [mobile_trucks] instead; and one more record when
    address-2 is non-empty.  A row therefore yields zero, one or two
    records. *)
Theorem ingest_row_record_count (i : nat) (row : list string) (st : ingest_state) :
  3 <= List.length row ->
  coffee_shops (ingest_row i row st) = coffee_shops st ++ yielded i row /\
  List.length (yielded i row)
  = (if Py.truthy (stripped_cell 1 row) then 1
     else if is_mobile (row_name i row) then 0 else 1)
    + (if Py.truthy (stripped_cell 2 row) then 1 else 0) /\
  mobile_trucks (ingest_row i row st)
  = mobile_trucks st ++
    (if negb (Py.truthy (stripped_cell 1 row)) && is_mobile (row_name i row)
     then [row_name i row] else []).
Proof.
  intros Hlen. split; [ apply ingest_row_appends | ].
  unfold yielded, ingest_row.
  assert (Hb : (List.length row <? 3) = false) by (apply Nat.ltb_ge; lia).
  rewrite Hb.
  destruct (Py.truthy (stripped_cell 1 row)), (is_mobile (row_name i row)),
    (Py.truthy (stripped_cell 2 row)); simpl; rewrite ?app_nil_r; auto.
Qed.

Lemma ingest_row_record_count_witness :
  List.length (yielded 3 ["Cup & Saucer"; "12 Main St, Paris, KY 40361"; "4 Oak Rd"; ""; ""; "Bourbon"]) = 2.
Proof.
  exact (proj1 (proj2 (ingest_row_record_count 3
    ["Cup & Saucer"; "12 Main St, Paris, KY 40361"; "4 Oak Rd"; ""; ""; "Bourbon"]
    (IngestState [] []) ltac:(simpl; lia)))).
Defined.

(** C8 fails as stated: an addressless row whose name has a mobile-service
    keyword yields no record at all, and a row whose address-1 is empty
    but whose address-2 is not yields two records. *)
Lemma ingest_row_record_count_counterexample :
  3 <= List.length ["Bean Truck"; ""; ""] /\
  is_mobile (row_name 1 ["Bean Truck"; ""; ""]) = true /\
  yielded 1 ["Bean Truck"; ""; ""] = [] /\
  stripped_cell 1 ["Corner Cafe"; ""; "7 Elm St"] = "" /\
  List.length (yielded 1 ["Corner Cafe"; ""; "7 Elm St"]) = 2.
Proof. repeat split; simpl; lia. Qed.

(** C9, as amended.  The header row is discarded and the records are
    those of the data rows, in order; a row with fewer than three columns
    is skipped; in a longer row the name is column 1, the addresses are
    columns 2 and 3 and the county is column 6 (index 5), so two unused
    columns lie between address-2 and the county. *)
Theorem ingest_columns (header : list string) (data : list (list string)) :
  fetch_coffee_shops (header :: data) = yielded_from 1 data /\
  (forall i row st, List.length row < 3 -> ingest_row i row st = st) /\
  (forall i row r,
     3 <= List.length row ->
     In r (yielded i row) ->
     county r = stripped_cell 5 row /\
     ((location_num r = 1 /\ name r = row_name i row /\
       original_address r = stripped_cell 1 row /\
       address r = format_address (stripped_cell 1 row) (stripped_cell 5 row))
      \/
      (location_num r = 2 /\ name r = row_name i row +:+ " (Location 2)" /\
       original_address r = stripped_cell 2 row /\
       address r = format_address (stripped_cell 2 row) (stripped_cell 5 row)))).
Proof.
  split; [ apply fetch_yielded | split ].
  - intros i row st H. unfold ingest_row. apply Nat.ltb_lt in H. now rewrite H.
  - intros i row r Hlen Hin.
    destruct (yielded_fields i row r Hlen Hin) as (Hc & _ & Hrest). auto.
Qed.

Lemma ingest_columns_witness :
  county (Shop "Cafe" "1 Main St, Paris, KY 40361" "1 Main St, Paris, KY 40361" "Bourbon" 1 2)
  = "Bourbon".
Proof.
  exact (proj1 (proj2 (proj2 (ingest_columns [] [])) 1
    ["Cafe"; "1 Main St, Paris, KY 40361"; ""; "a"; "b"; "Bourbon"; "Clark"]
    (Shop "Cafe" "1 Main St, Paris, KY 40361" "1 Main St, Paris, KY 40361" "Bourbon" 1 2)
    ltac:(simpl; lia) ltac:(left; reflexivity))).
Defined.

(** C9 fails as stated: the county is read from the sixth column, not from
    the seventh. *)
Lemma ingest_columns_counterexample :
  map county
    (fetch_coffee_shops
       [ ["Name"; "Address 1"; "Address 2"; "Phone"; "Web"; "County"; "Notes"];
         ["Cafe"; "1 Main St, Paris, KY 40361"; ""; "a"; "b"; "Bourbon"; "Clark"] ])
  = ["Bourbon"] /\
  nth 6 ["Cafe"; "1 Main St, Paris, KY 40361"; ""; "a"; "b"; "Bourbon"; "Clark"] ""
  = "Clark".
Proof. split; reflexivity. Qed.

(** ** The candidate generator *)

Lemma mem_In (x : string) (l : list string) : mem x l = true <-> In x l.
Proof.
  unfold mem. rewrite existsb_exists. split.
  - intros (y & Hy & E). apply String.eqb_eq in E. now subst.
  - intros H. exists x. split; [ assumption | apply String.eqb_refl ].
Qed.

Lemma mem_app (x : string) (l1 l2 : list string) :
  mem x (l1 ++ l2) = mem x l1 || mem x l2.
Proof. unfold mem. apply existsb_app. Qed.

Lemma keep_first_In (x : string) (l : list string) :
  In x (keep_first l) <-> In x l.
Proof.
  induction l as [| y l IH]; simpl; [ tauto | ].
  rewrite filter_In, IH. split.
  - intros [H | [H _]]; auto.
  - intros [H | H]; [ auto | ].
    destruct (String.eqb_spec x y) as [E | N]; [ left; auto | right ].
    split; [ assumption | reflexivity ].
Qed.

Lemma keep_first_NoDup (l : list string) : List.NoDup (keep_first l).
Proof.
  induction l as [| y l IH]; simpl; constructor.
  - rewrite filter_In. intros [_ H]. now rewrite String.eqb_refl in H.
  - now apply List.NoDup_filter.
Qed.

Lemma filter_filter_absorb (f g : string -> bool) (l : list string) :
  (forall y, f y = true -> g y = true) ->
  List.filter f (List.filter g l) = List.filter f l.
Proof.
  intros H. induction l as [| y l IH]; simpl; [ reflexivity | ].
  destruct (g y) eqn:G; simpl.
  - destruct (f y); now rewrite IH.
  - destruct (f y) eqn:F; [ apply H in F; congruence | assumption ].
Qed.

Lemma filter_filter_both (f g : string -> bool) (l : list string) :
  List.filter f (List.filter g l) = List.filter (fun y => g y && f y) l.
Proof.
  induction l as [| y l IH]; simpl; [ reflexivity | ].
  destruct (g y); simpl; [ destruct (f y) | ]; now rewrite IH.
Qed.

(** Appending what is new, one string after the other, is deduplication
    that keeps first occurrences. *)
Lemma fold_append_new (l : list string) :
  forall acc,
    fold_left (fun a v => append_new v a) l acc
    = acc ++ List.filter (fun y => negb (mem y acc)) (keep_first l).
Proof.
  induction l as [| x l IH]; intros acc; simpl.
  - now rewrite app_nil_r.
  - rewrite IH. unfold append_new.
    destruct (mem x acc) eqn:M; simpl.
    + f_equal. symmetry. apply filter_filter_absorb.
      intros y Hy. apply negb_true_iff. apply String.eqb_neq. intros ->.
      rewrite M in Hy. discriminate.
    + rewrite <- app_assoc. simpl. f_equal. f_equal.
      rewrite filter_filter_both. apply List.filter_ext. intros y.
      rewrite mem_app. simpl. rewrite orb_false_r, negb_orb. apply andb_comm.
Qed.

Lemma fold_append_new_flat_map {X : Type} (g : X -> list string)
    (step : list string -> X -> list string) (l : list X) :
  (forall a x, step a x = fold_left (fun a v => append_new v a) (g x) a) ->
  forall acc,
    fold_left step l acc = fold_left (fun a v => append_new v a) (flat_map g l) acc.
Proof.
  intros Hstep. induction l as [| x l IH]; intros acc; simpl; [ reflexivity | ].
  now rewrite fold_left_app, IH, Hstep.
Qed.

(** The generator is the left-to-right insertion of the proposed variants
    into the list that starts with the address itself. *)
Lemma address_attempts_fold (address : string) :
  address_attempts address
  = fold_left (fun a v => append_new v a) (variants address) [address].
Proof.
  unfold address_attempts, variants, suite_variants. rewrite !fold_left_app.
  rewrite <- (fold_append_new_flat_map (abbrev_variant address) (abbrev_step address)).
  2:{ intros a [abbrev full_word]. unfold abbrev_step, abbrev_variant. simpl.
      destruct (Py.contains abbrev address); [ reflexivity | ].
      destruct (Py.contains full_word address); reflexivity. }
  f_equal.
  rewrite <- (fold_append_new_flat_map
                (fun pattern => if Py.contains pattern address
                                then [suite_base_address address pattern] else [])
                (suite_step address)).
  2:{ intros a pattern. unfold suite_step.
      destruct (Py.contains pattern address); reflexivity. }
  unfold no_suite_step, no_suite_variant.
  destruct (String.eqb (Re.remove_all Re.suite_fragment address) address); simpl;
    [ reflexivity | ].
  unfold append_new.
  destruct (mem (Re.remove_all Re.suite_fragment address) _); reflexivity.
Qed.

Lemma address_attempts_keep_first (address : string) :
  address_attempts address = keep_first (address :: variants address).
Proof.
  rewrite address_attempts_fold, fold_append_new. simpl. f_equal.
  apply List.filter_ext. intros y. now rewrite orb_false_r.
Qed.

(** C4.  The candidate list of an address has at least one element, its
    element 0 is the address itself, its elements are pairwise distinct,
    and it is the sequence "address, then the proposed variants" with
    every repetition after the first occurrence dropped (first-seen
    order).  This holds for every address, the non-empty ones included. *)
Theorem candidate_list_invariant (address : string) :
  1 <= List.length (address_attempts address) /\
  nth_error (address_attempts address) 0 = Some address /\
  List.NoDup (address_attempts address) /\
  address_attempts address = keep_first (address :: variants address).
Proof.
  rewrite address_attempts_keep_first. repeat split.
  - simpl. lia.
  - apply (keep_first_NoDup (address :: variants address)).
Qed.




Example float_of_decimal_ex :
  Mock.float_of_decimal "38.2098" = Some 38.2098%float /\
  Mock.float_of_decimal "-84.2530" = Some (-84.2530)%float /\
  Mock.float_of_decimal "n/a" = None.
Proof. repeat split; vm_compute; reflexivity. Qed.

(** ** The resolver *)

Lemma named_display_name_text (r : geo_match) :
  named r = true ->
  exists d, display_name_text r = Some d /\
            mentions_state r = Py.contains "kentucky" (Py.lower d).
Proof.
  destruct r as [[[| b | x | d |] |] la lo |]; simpl; try discriminate; eauto.
Qed.

Lemma not_named_display_name_text (r : geo_match) :
  named r = false -> display_name_text r = None.
Proof.
  destruct r as [[[| b | x | d |] |] la lo |]; simpl; try discriminate; reflexivity.
Qed.

(** On results that are all objects with a textual display name the
    comprehension is a filter; on any other list it raises. *)
Lemma ky_results_named (results : list geo_match) :
  forallb named results = true ->
  ky_results results = Some (List.filter mentions_state results).
Proof.
  induction results as [| r results IH]; cbn [forallb ky_results List.filter];
    [ reflexivity | ].
  intros H. apply andb_prop in H as [Hr Hrest].
  destruct (named_display_name_text r Hr) as (d & -> & ->).
  now rewrite (IH Hrest).
Qed.

Lemma ky_results_not_named (results : list geo_match) :
  forallb named results = false -> ky_results results = None.
Proof.
  induction results as [| r results IH]; cbn [forallb ky_results];
    [ discriminate | ].
  intros H. destruct (named r) eqn:Hr.
  - destruct (named_display_name_text r Hr) as (d & -> & _).
    now rewrite (IH H).
  - now rewrite (not_named_display_name_text r Hr).
Qed.

Lemma filter_head_find {X : Type} (f : X -> bool) (l : list X) (d : X) :
  match List.filter f l with k :: _ => k | [] => d end
  = match List.find f l with Some k => k | None => d end.
Proof.
  induction l as [| x l IH]; simpl; [ reflexivity | ].
  destruct (f x); [ reflexivity | exact IH ].
Qed.

Lemma firstn_snoc {X : Type} (i : nat) :
  forall (l : list X) (x : X),
    nth_error l i = Some x -> firstn (S i) l = firstn i l ++ [x].
Proof.
  induction i as [| i IH]; intros [| y l] x H; simpl in H; try discriminate.
  - now injection H as ->.
  - cbn [firstn app]. f_equal. now apply IH.
Qed.

Lemma best_result_state_preferring (first : geo_match) (rest : list geo_match) :
  forallb named (first :: rest) = true ->
  best_result first rest = Some (state_preferring first rest).
Proof.
  intros H. unfold best_result, state_preferring.
  rewrite (ky_results_named _ H), <- filter_head_find.
  destruct (List.filter mentions_state (first :: rest)); reflexivity.
Qed.

Lemma best_result_not_named (first : geo_match) (rest : list geo_match) :
  forallb named (first :: rest) = false ->
  best_result first rest = None.
Proof.
  intros H. unfold best_result. now rewrite (ky_results_not_named _ H).
Qed.

Section ResolverFacts.

Variable service_state : Type.
Variable service : service_state -> string -> response * service_state.
Variable float_of_string : string -> option float.

#[local] Abbreviation World := (world service_state).
#[local] Abbreviation run_attempt := (attempt service_state service float_of_string).
#[local] Abbreviation run_attempts := (try_attempts service_state service float_of_string).
#[local] Abbreviation geocode := (geocode_address service_state service float_of_string).
#[local] Abbreviation answers := (responses service_state service).
#[local] Abbreviation state_after := (service_after service_state service).
#[local] Abbreviation fails := (attempt_fails float_of_string).
#[local] Abbreviation read := (read_response float_of_string).

Lemma attempt_fails_read (r : response) :
  fails r <-> read r = None.
Proof.
  split.
  - intros H. destruct H as [| | | | first rest H | first rest best H H'];
      cbn [read_response]; try reflexivity; now rewrite H.
  - destruct r as [| | | [| first rest]]; cbn [read_response]; intros H;
      [ constructor .. | ].
    destruct (best_result first rest) as [best |] eqn:B.
    + now apply fails_fields with best.
    + now apply fails_selection.
Qed.

Lemma attempt_unfold (q : string) (w : World) :
  run_attempt q w
  = (read (fst (service (svc _ w) q)),
     {| svc := snd (service (svc _ w) q);
        calls := calls _ w ++ [q];
        slept := slept _ w + 1 |}).
Proof. unfold attempt. destruct (service (svc _ w) q). reflexivity. Qed.

(** When every request fails the loop runs through the whole list. *)
Lemma try_attempts_all_fail (attempts : list string) :
  forall w : World,
    Forall fails (answers attempts (svc _ w)) ->
    run_attempts attempts w
    = (None, {| svc := state_after attempts (svc _ w);
                calls := calls _ w ++ attempts;
                slept := slept _ w + List.length attempts |}).
Proof.
  induction attempts as [| q rest IH]; intros w H; simpl.
  - rewrite app_nil_r, Nat.add_0_r. now destruct w.
  - simpl in H. apply Forall_cons_iff in H as [Hq Hrest].
    apply attempt_fails_read in Hq.
    rewrite attempt_unfold, Hq. rewrite IH by exact Hrest. simpl.
    rewrite <- app_assoc. simpl. f_equal. f_equal. lia.
Qed.

(** The loop stops at the first request that yields readable coordinates. *)
Lemma try_attempts_first_success (i : nat) :
  forall (attempts : list string) (w : World) r c,
    Forall fails (firstn i (answers attempts (svc _ w))) ->
    nth_error (answers attempts (svc _ w)) i = Some r ->
    read r = Some c ->
    run_attempts attempts w
    = (Some c, {| svc := state_after (firstn (S i) attempts) (svc _ w);
                  calls := calls _ w ++ firstn (S i) attempts;
                  slept := slept _ w + S i |}).
Proof.
  induction i as [| i IH]; intros attempts w r c Hfail Hnth Hc;
    destruct attempts as [| q qs]; simpl in Hnth; try discriminate.
  - injection Hnth as Hr. cbn [try_attempts].
    rewrite attempt_unfold, Hr, Hc. reflexivity.
  - simpl in Hfail. apply Forall_cons_iff in Hfail as [Hq Hrest].
    apply attempt_fails_read in Hq.
    cbn [try_attempts]. rewrite attempt_unfold, Hq.
    erewrite IH; [ | simpl; exact Hrest | simpl; exact Hnth | exact Hc ].
    cbn [svc calls slept firstn].
    rewrite <- app_assoc. cbn [service_after app].
    f_equal. f_equal. lia.
Qed.

End ResolverFacts.

Section ResolverClaims.

Variable service_state : Type.
Variable service : service_state -> string -> response * service_state.
Variable float_of_string : string -> option float.

#[local] Abbreviation World := (world service_state).
#[local] Abbreviation geocode := (geocode_address service_state service float_of_string).
#[local] Abbreviation answers := (responses service_state service).
#[local] Abbreviation state_after := (service_after service_state service).
#[local] Abbreviation fails := (attempt_fails float_of_string).

(** C2, as amended.  Let the requests for the candidates before index [i]
    fail and the request for candidate [i] return one or more matches.
    When every match is an object whose display name, if present, is a
    string, the resolver selects the first match whose display name
    contains "kentucky" case-insensitively, or the first match when none
    does, and reads its latitude and longitude with [float]; when both
    are present and readable it returns them at once: exactly the
    candidates [0 .. i] have been sent, in order, and none after [i].
    When some match is not of that form, or the selected match has no
    readable latitude or longitude, the attempt is a failed one like the
    ones before it, and the resolver goes on with the next candidate. *)
Theorem first_match_wins (address original_address : string) (w : World)
    (i : nat) (first : geo_match) (rest : list geo_match) (c : coordinates) :
  address <> "" ->
  Forall fails (firstn i (answers (address_attempts address) (svc _ w))) ->
  nth_error (answers (address_attempts address) (svc _ w)) i
    = Some (Matches (first :: rest)) ->
  (forallb named (first :: rest) = true ->
   parse_coordinates float_of_string (state_preferring first rest) = Some c ->
   geocode address original_address w
   = (inl c,
      {| svc := state_after (firstn (S i) (address_attempts address)) (svc _ w);
         calls := calls _ w ++ firstn (S i) (address_attempts address);
         slept := slept _ w + S i |})) /\
  (forallb named (first :: rest) = false \/
   parse_coordinates float_of_string (state_preferring first rest) = None ->
   Forall fails (firstn (S i) (answers (address_attempts address) (svc _ w)))).
Proof.
  intros Hne Hfail Hnth. split.
  - intros Hnamed Hc. unfold geocode_address.
    destruct address as [| a address']; [ congruence | ]. cbn [Py.truthy negb].
    rewrite (try_attempts_first_success _ service float_of_string i _ w
               (Matches (first :: rest)) c Hfail Hnth); [ reflexivity | ].
    cbn [read_response].
    now rewrite (best_result_state_preferring first rest Hnamed).
  - intros Hbad.
    rewrite (firstn_snoc _ _ _ Hnth).
    apply Forall_app_2; [ exact Hfail | ].
    constructor; [ | constructor ].
    destruct (forallb named (first :: rest)) eqn:Hnamed.
    + destruct Hbad as [Hbad | Hbad]; [ discriminate | ].
      apply fails_fields with (state_preferring first rest); [ | exact Hbad ].
      now apply best_result_state_preferring.
    + apply fails_selection. now apply best_result_not_named.
Qed.

(** C3.  When the request for every candidate ends in a transport
    failure, an unreadable response or an empty list of matches, the
    resolver sends all [N] candidates in order, none of these outcomes
    stops it, and it returns the failure "All N geocoding attempts failed
    for: " followed by the original address (by the normalised address
    when the caller passed no original address). *)
Theorem exhausted_after_all_attempts (address original_address : string) (w : World) :
  address <> "" ->
  Forall fails (answers (address_attempts address) (svc _ w)) ->
  geocode address original_address w
  = (inr ("All " +:+ Py.str_of_nat (List.length (address_attempts address))
            +:+ " geocoding attempts failed for: "
            +:+ (if Py.truthy original_address then original_address else address)),
     {| svc := state_after (address_attempts address) (svc _ w);
        calls := calls _ w ++ address_attempts address;
        slept := slept _ w + List.length (address_attempts address) |}).
Proof.
  intros Hne Hfail. unfold geocode_address.
  destruct address as [| a address']; [ congruence | ]. cbn [Py.truthy negb].
  now rewrite (try_attempts_all_fail _ service float_of_string _ w Hfail).
Qed.

End ResolverClaims.

Lemma first_match_wins_witness :
  geocode_address unit Mock.street_only Mock.float_of_decimal
    "500 W Main St, Lexington, KY 40507" "500 W Main St Lexington" Mock.fresh
  = (inl (38.0498%float, (-84.5004)%float),
     {| svc := tt;
        calls := [ "500 W Main St, Lexington, KY 40507";
                   "500 W Main Street, Lexington, KY 40507" ];
        slept := 2 |}).
Proof.
  assert (E : responses unit Mock.street_only
                (address_attempts "500 W Main St, Lexington, KY 40507") tt
              = [ Matches [];
                  Matches [ GeoMatch (Some (JString "West Main Street, Springfield, Ohio"))
                              (Some (JString "39.9242")) (Some (JString "-83.8088"));
                            GeoMatch (Some (JString "West Main Street, Lexington, Kentucky"))
                              (Some (JString "38.0498")) (Some (JString "-84.5004")) ] ])
    by (vm_compute; reflexivity).
  match goal with |- ?G => refine (proj1 (first_match_wins unit Mock.street_only Mock.float_of_decimal
            "500 W Main St, Lexington, KY 40507" "500 W Main St Lexington"
            Mock.fresh 1
            (GeoMatch (Some (JString "West Main Street, Springfield, Ohio"))
               (Some (JString "39.9242")) (Some (JString "-83.8088")))
            [ GeoMatch (Some (JString "West Main Street, Lexington, Kentucky"))
                (Some (JString "38.0498")) (Some (JString "-84.5004")) ]
            (38.0498%float, (-84.5004)%float) _ _ _) _ _
          <: G) end.
  - discriminate.
  - cbn [svc Mock.fresh]. rewrite E. repeat constructor.
  - cbn [svc Mock.fresh]. rewrite E. reflexivity.
  - vm_compute. reflexivity.
  - vm_compute. reflexivity.
Defined.

(** C2 fails as stated: a request that returns a match is not always the
    end of the resolution.  Here the request for candidate 0 returns one
    match whose latitude is unreadable; candidate 1 is tried as well and
    it is its match that is returned. *)
Lemma first_match_wins_counterexample :
  nth_error
    (responses unit Mock.unreadable_first
       (address_attempts "500 W Main St, Lexington, KY 40507") tt) 0
  = Some (Matches [ GeoMatch (Some (JString "Main Street, Lexington, Kentucky"))
                      (Some (JString "n/a")) (Some (JString "-84.4970")) ]) /\
  geocode_address unit Mock.unreadable_first Mock.float_of_decimal
    "500 W Main St, Lexington, KY 40507" "500 W Main St Lexington" Mock.fresh
  = (inl (38.0498%float, (-84.5004)%float),
     {| svc := tt;
        calls := [ "500 W Main St, Lexington, KY 40507";
                   "500 W Main Street, Lexington, KY 40507" ];
        slept := 2 |}).
Proof. split; vm_compute; reflexivity. Qed.

(** The same happens when a match that is not selectable comes with the
    answer: the first answer below has a match with [null] for a display
    name next to a match in the state, and the resolver goes on to
    candidate 1. *)
Example nameless_match_fails_attempt :
  geocode_address unit Mock.nameless_first Mock.float_of_decimal
    "500 W Main St, Lexington, KY 40507" "500 W Main St Lexington" Mock.fresh
  = (inl (38.0498%float, (-84.5004)%float),
     {| svc := tt;
        calls := [ "500 W Main St, Lexington, KY 40507";
                   "500 W Main Street, Lexington, KY 40507" ];
        slept := 2 |}).
Proof. vm_compute; reflexivity. Qed.

Lemma exhausted_after_all_attempts_witness :
  geocode_address unit Mock.down_service Mock.float_of_decimal
    "2100 Buena Vista Rd, Suite 1 Lexington KY 40505"
    "2100 Buena Vista Rd Suite 1 Lexington KY 40505" Mock.fresh
  = (inr "All 5 geocoding attempts failed for: 2100 Buena Vista Rd Suite 1 Lexington KY 40505",
     {| svc := tt;
        calls := [ "2100 Buena Vista Rd, Suite 1 Lexington KY 40505";
                   "2100 Buena Vista Rd, Lexington KY 40505";
                   "2100 Buena Vista Rd,, Lexington KY 40505";
                   "2100 Buena Vista Rd Lexington KY 40505";
                   "2100 Buena Vista Road, Suite 1 Lexington KY 40505" ];
        slept := 5 |}).
Proof.
  match goal with |- ?G => refine (exhausted_after_all_attempts unit Mock.down_service Mock.float_of_decimal
            "2100 Buena Vista Rd, Suite 1 Lexington KY 40505"
            "2100 Buena Vista Rd Suite 1 Lexington KY 40505" Mock.fresh _ _
          <: G) end.
  - discriminate.
  - generalize (address_attempts "2100 Buena Vista Rd, Suite 1 Lexington KY 40505").
    generalize (svc unit Mock.fresh).
    intros s l. revert s. induction l as [| q l IH]; intros s; constructor.
    + constructor.
    + apply IH.
Defined.

(** ** The override table and the record loop *)

Section RecordLoopClaims.

Variable service_state : Type.
Variable service : service_state -> string -> response * service_state.
Variable float_of_string : string -> option float.
Variable overrides : gmap string coordinates.

#[local] Abbreviation step := (marker_step service_state service float_of_string overrides).
#[local] Abbreviation LoopState := (loop_state service_state).

(** C1.  Let the override table have no entry for the empty string (an
    empty address means "no address"; the table of the source has one
    key, a full address), and let the loop be running.  For a record
    whose normalised address is a key of the table the resolution is the
    table's coordinates, counted as a manual override, with the world
    outside left as it was, so no request is sent; the loop places the
    marker there (or stops, when the table holds a location that cannot
    be placed on a map).  The key is looked up by exact equality with the
    normalised address alone: when that address is not a key no override
    is counted and the resolution is that of the geocoder, whatever the
    original address is; the loop then skips the record when it has no
    address, places a marker at the geocoder's coordinates (or stops on a
    location that cannot be placed), or files the geocoder's error. *)
Theorem override_short_circuit (s : shop) (st : LoopState) :
  overrides !! "" = None ->
  raised _ st = false ->
  (forall c : coordinates,
     overrides !! address s = Some c ->
     resolve service_state service float_of_string overrides s st
     = (inl c, manual_overrides_used _ st + 1, outside _ st) /\
     step st s
     = if locatable c then
         {| successful_markers := successful_markers _ st + 1;
            failed_geocoding := failed_geocoding _ st;
            manual_overrides_used := manual_overrides_used _ st + 1;
            markers := markers _ st ++ [ {| marker_name := name s; marker_location := c |} ];
            outside := outside _ st;
            raised := false |}
       else
         {| successful_markers := successful_markers _ st;
            failed_geocoding := failed_geocoding _ st;
            manual_overrides_used := manual_overrides_used _ st + 1;
            markers := markers _ st;
            outside := outside _ st;
            raised := true |}) /\
  (overrides !! address s = None ->
   resolve service_state service float_of_string overrides s st
   = (fst (geocode_address service_state service float_of_string
             (address s) (original_address s) (outside _ st)),
      manual_overrides_used _ st,
      snd (geocode_address service_state service float_of_string
             (address s) (original_address s) (outside _ st))) /\
   (address s = "" -> step st s = st) /\
   (forall (c : coordinates) (w' : world service_state),
      geocode_address service_state service float_of_string
        (address s) (original_address s) (outside _ st) = (inl c, w') ->
      step st s
      = if locatable c then
          {| successful_markers := successful_markers _ st + 1;
             failed_geocoding := failed_geocoding _ st;
             manual_overrides_used := manual_overrides_used _ st;
             markers := markers _ st ++ [ {| marker_name := name s; marker_location := c |} ];
             outside := w';
             raised := false |}
        else
          {| successful_markers := successful_markers _ st;
             failed_geocoding := failed_geocoding _ st;
             manual_overrides_used := manual_overrides_used _ st;
             markers := markers _ st;
             outside := w';
             raised := true |}) /\
   (forall (e : string) (w' : world service_state),
      address s <> "" ->
      geocode_address service_state service float_of_string
        (address s) (original_address s) (outside _ st) = (inr e, w') ->
      step st s
      = {| successful_markers := successful_markers _ st;
           failed_geocoding := failed_geocoding _ st ++
             [ {| failure_name := name s;
                  failure_original_address := original_address s;
                  failure_formatted_address := address s;
                  failure_error := e;
                  failure_row := row_number s |} ];
           manual_overrides_used := manual_overrides_used _ st;
           markers := markers _ st;
           outside := w';
           raised := false |})).
Proof.
  intros Hempty Hrun. unfold marker_step, resolve. rewrite Hrun. split.
  - intros c Hc. rewrite Hc. split; [ reflexivity | ].
    destruct (address s) as [| a rest] eqn:Ha; [ congruence | ].
    cbn [Py.truthy negb]. reflexivity.
  - intros Hnone. rewrite Hnone.
    destruct (geocode_address _ _ _ (address s) _ _) as [res w1] eqn:G.
    cbn [fst snd]. split; [ reflexivity | ]. split; [ | split ].
    + intros Ha. rewrite Ha. reflexivity.
    + intros c w' E. injection E as -> ->.
      destruct (address s) as [| a rest] eqn:Ha.
      * unfold geocode_address in G. cbn [Py.truthy negb] in G. discriminate.
      * cbn [Py.truthy negb]. reflexivity.
    + intros e w' Hne E. injection E as -> ->.
      destruct (address s) as [| a rest] eqn:Ha; [ congruence | ].
      cbn [Py.truthy negb]. reflexivity.
Qed.

(** Every failure the loop files comes from one of the records and
    carries that record's row number and name. *)
Lemma marker_step_failures (st : LoopState) (s : shop) (f : failure) :
  In f (failed_geocoding _ (step st s)) ->
  In f (failed_geocoding _ st) \/
  (failure_row f = row_number s /\ failure_name f = name s).
Proof.
  unfold marker_step.
  destruct (raised _ st); [ auto | ].
  destruct (negb (Py.truthy (address s))); [ auto | ].
  destruct (resolve _ _ _ _ s st) as [[[c | e] used] w'].
  - destruct (locatable c); simpl; auto.
  - simpl. rewrite in_app_iff. simpl. intros [H | [<- | []]]; auto.
Qed.

Lemma loop_failures (shops : list shop) :
  forall (st : LoopState) (f : failure),
    In f (failed_geocoding _ (fold_left step shops st)) ->
    In f (failed_geocoding _ st) \/
    exists s, In s shops /\ failure_row f = row_number s /\ failure_name f = name s.
Proof.
  induction shops as [| s shops IH]; intros st f; simpl; [ auto | ].
  intros H. apply IH in H as [H | (s' & Hs' & Hrow)].
  - apply marker_step_failures in H as [H | H]; [ auto | right; eauto ].
  - right. eauto.
Qed.

End RecordLoopClaims.

Lemma override_short_circuit_witness :
  marker_step unit Mock.down_service Mock.float_of_decimal manual_coordinates
    {| successful_markers := 0; failed_geocoding := [];
       manual_overrides_used := 0; markers := []; outside := Mock.fresh;
       raised := false |}
    (Shop "Joe's Coffee" "121 Bethel Harvest Dr Nicholasville, KY 40356"
       "121 Bethel Harvest Dr Nicholasville, KY 40356" "Jessamine" 1 2)
  = {| successful_markers := 1; failed_geocoding := [];
       manual_overrides_used := 1;
       markers := [ Marker "Joe's Coffee" (37.8814%float, (-84.5730)%float) ];
       outside := Mock.fresh;
       raised := false |}.
Proof.
  exact (proj2
           (proj1 (override_short_circuit unit Mock.down_service Mock.float_of_decimal
                     manual_coordinates
                     (Shop "Joe's Coffee" "121 Bethel Harvest Dr Nicholasville, KY 40356"
                        "121 Bethel Harvest Dr Nicholasville, KY 40356" "Jessamine" 1 2)
                     {| successful_markers := 0; failed_geocoding := [];
                        manual_overrides_used := 0; markers := []; outside := Mock.fresh;
                        raised := false |}
                     ltac:(vm_compute; reflexivity) eq_refl)
                  (37.8814%float, (-84.5730)%float) ltac:(vm_compute; reflexivity))).
Defined.

(** The end-to-end example of the specification: the row of Joe's Coffee
    is resolved by the override, and no request is recorded. *)
Example joes_coffee_end_to_end :
  let st :=
    add_coffee_shop_markers unit Mock.down_service Mock.float_of_decimal
      manual_coordinates
      (fetch_coffee_shops
         [ ["Name"; "Address 1"; "Address 2"; "Phone"; "Web"; "County"];
           ["Joe's Coffee"; "121 Bethel Harvest Dr Nicholasville, KY 40356";
            ""; ""; ""; "Jessamine"] ])
      Mock.fresh in
  markers unit st = [ Marker "Joe's Coffee" (37.8814%float, (-84.5730)%float) ] /\
  manual_overrides_used unit st = 1 /\
  calls unit (outside unit st) = [].
Proof. vm_compute. repeat split; reflexivity. Qed.

(** ** Row numbers *)

Lemma file_failure_In (f g : failure) (groups : list (string * list failure)) :
  In g (flat_map snd (file_failure f groups)) <->
  g = f \/ In g (flat_map snd groups).
Proof.
  induction groups as [| [k fs] groups IH]; simpl.
  - intuition auto.
  - destruct (String.eqb k (error_key (failure_error f))); simpl;
      rewrite ?in_app_iff; [ | rewrite IH ]; simpl; intuition auto.
Qed.

Lemma error_types_In (failed : list failure) (g : failure) :
  In g (flat_map snd (error_types failed)) <-> In g failed.
Proof.
  unfold error_types.
  assert (H : forall groups,
             In g (flat_map snd (fold_left (fun acc f => file_failure f acc) failed groups))
             <-> In g (flat_map snd groups) \/ In g failed).
  { induction failed as [| f failed IH]; intros groups; simpl.
    - tauto.
    - rewrite IH, file_failure_In. intuition auto. }
  rewrite H. simpl. tauto.
Qed.

(** Every line of the report shows the row and name of a filed failure. *)
Lemma report_rows_In (failed : list failure) (row : nat) (nm : string) :
  In (row, nm) (report_rows failed) <->
  exists f, In f failed /\ failure_row f = row /\ failure_name f = nm.
Proof.
  unfold report_rows. rewrite in_flat_map. split.
  - intros ([k fs] & Hg & Hin). simpl in Hin. apply in_map_iff in Hin as (f & E & Hf).
    injection E as <- <-. exists f. split; [ | auto ].
    apply error_types_In. apply in_flat_map. exists (k, fs). auto.
  - intros (f & Hf & <- & <-). apply error_types_In in Hf.
    apply in_flat_map in Hf as (g & Hg & Hin). exists g. split; [ assumption | ].
    apply in_map_iff. exists f. auto.
Qed.

(** C10.  A record made from the data row at 1-based position [k + 1]
    carries row number [k + 2]: the header counts as row 1 and the
    first data row is row 2.  All records of one row, both records of a
    dual-address row in particular, carry the same number, and the number
    printed in a line of the failure report is the row number of an
    ingested record, hence the sheet row of a data row. *)
Theorem row_number_is_sheet_row (header : list string) (data : list (list string)) :
  (forall r : shop,
     In r (fetch_coffee_shops (header :: data)) ->
     exists k row,
       nth_error data k = Some row /\
       In r (yielded (k + 1) row) /\
       row_number r = (k + 1) + 1 /\
       forall r', In r' (yielded (k + 1) row) -> row_number r' = row_number r) /\
  (forall (service_state : Type)
          (service : service_state -> string -> response * service_state)
          (float_of_string : string -> option float)
          (overrides : gmap string coordinates)
          (w : world service_state) (row : nat) (nm : string),
     In (row, nm)
        (report_rows
           (failed_geocoding _
              (add_coffee_shop_markers service_state service float_of_string
                 overrides (fetch_coffee_shops (header :: data)) w))) ->
     exists k cells r,
       nth_error data k = Some cells /\
       In r (yielded (k + 1) cells) /\
       nm = name r /\
       row = (k + 1) + 1).
Proof.
  assert (Hrec : forall r : shop,
             In r (fetch_coffee_shops (header :: data)) ->
             exists k row,
               nth_error data k = Some row /\
               In r (yielded (k + 1) row) /\
               row_number r = (k + 1) + 1 /\
               forall r', In r' (yielded (k + 1) row) -> row_number r' = row_number r).
  { intros r Hr. rewrite fetch_yielded in Hr.
    apply yielded_from_In in Hr as (k & row & Hk & Hin).
    rewrite Nat.add_comm in Hin.
    exists k, row. repeat split; try assumption.
    - now apply yielded_row_number in Hin.
    - intros r' Hr'. apply yielded_row_number in Hr', Hin. congruence. }
  split; [ exact Hrec | ].
  intros service_state service float_of_string overrides w row nm Hin.
  apply report_rows_In in Hin as (f & Hf & <- & <-).
  unfold add_coffee_shop_markers in Hf.
  apply loop_failures in Hf as [[] | (s & Hs & Hrow & Hname)].
  apply Hrec in Hs as (k & cells & Hk & Hin & Hnum & _).
  exists k, cells, s. repeat split; auto. congruence.
Qed.

Lemma row_number_is_sheet_row_witness :
  exists k row,
    nth_error [ ["Cup & Saucer"; "12 Main St, Paris, KY 40361"; "4 Oak Rd"; ""; ""; "Bourbon"] ] k
      = Some row /\
    In (Shop "Cup & Saucer (Location 2)" "4 Oak Rd, Bourbon County, KY" "4 Oak Rd" "Bourbon" 2 2)
       (yielded (k + 1) row) /\
    2 = (k + 1) + 1 /\
    forall r', In r' (yielded (k + 1) row) -> row_number r' = 2.
Proof.
  exact (proj1 (row_number_is_sheet_row ["Name"; "Address 1"; "Address 2"]
                  [ ["Cup & Saucer"; "12 Main St, Paris, KY 40361"; "4 Oak Rd"; ""; ""; "Bourbon"] ])
               (Shop "Cup & Saucer (Location 2)" "4 Oak Rd, Bourbon County, KY" "4 Oak Rd" "Bourbon" 2 2)
               ltac:(vm_compute; tauto)).
Defined.

(** ** Facts about the string primitives *)

Lemma append_assoc (a b c : string) : (a +:+ b) +:+ c = a +:+ b +:+ c.
Proof. induction a as [| x a IH]; simpl; [ reflexivity | now rewrite IH ]. Qed.

Lemma append_nil_r (a : string) : a +:+ "" = a.
Proof. induction a as [| x a IH]; simpl; [ reflexivity | now rewrite IH ]. Qed.

Lemma first_char_append (a b : string) :
  first_char (a +:+ b) = match first_char a with Some c => Some c | None => first_char b end.
Proof. destruct a; reflexivity. Qed.

Lemma last_char_append (a b : string) :
  last_char (a +:+ b) = match last_char b with Some c => Some c | None => last_char a end.
Proof.
  induction a as [| x a IH]; simpl.
  - destruct (last_char b); reflexivity.
  - rewrite IH. destruct (last_char b); reflexivity.
Qed.

Lemma last_char_None (s : string) : last_char s = None -> s = "".
Proof. destruct s as [| c s]; simpl; [ auto | destruct (last_char s); discriminate ]. Qed.

Lemma take_drop (n : nat) (s : string) : Py.take n s +:+ Py.drop n s = s.
Proof.
  revert s. induction n as [| n IH]; intros [| c s]; simpl; try reflexivity.
  now rewrite IH.
Qed.

Lemma drop_drop (n m : nat) (s : string) : Py.drop m (Py.drop n s) = Py.drop (n + m) s.
Proof.
  revert s. induction n as [| n IH]; intros [| c s]; simpl; try reflexivity.
  - now destruct m.
  - apply IH.
Qed.

Lemma startswith_split (p s : string) :
  Py.startswith p s = true -> s = p +:+ Py.drop (String.length p) s.
Proof.
  revert s. induction p as [| a p IH]; intros [| b s]; simpl; try discriminate; auto.
  intros H. apply andb_true_iff in H as [Hab Hp].
  apply Ascii.eqb_eq in Hab. subst b. f_equal. now apply IH.
Qed.

Lemma startswith_append (p t : string) : Py.startswith p (p +:+ t) = true.
Proof.
  induction p as [| a p IH]; simpl; [ reflexivity | ].
  now rewrite Ascii.eqb_refl, IH.
Qed.

(** [find] returns the offset of an occurrence. *)
Lemma find_Some (p s : string) :
  forall n, Py.find p s = Some n -> Py.startswith p (Py.drop n s) = true.
Proof.
  induction s as [| c s IH]; intros n; simpl.
  - destruct (Py.startswith p "") eqn:E; [ | discriminate ].
    intros [= <-]. exact E.
  - destruct (Py.startswith p (String c s)) eqn:E.
    + intros [= <-]. exact E.
    + destruct (Py.find p s) as [m |]; simpl; [ | discriminate ].
      intros [= <-]. simpl. now apply IH.
Qed.

Lemma find_Some_split (p s : string) (n : nat) :
  Py.find p s = Some n ->
  s = Py.take n s +:+ p +:+ Py.drop (n + String.length p) s.
Proof.
  intros H. apply find_Some in H. apply startswith_split in H.
  rewrite drop_drop in H. rewrite <- H. symmetry. apply take_drop.
Qed.

Lemma find_startswith (p s : string) :
  Py.startswith p s = true -> Py.find p s = Some 0.
Proof. intros H. destruct s; simpl; now rewrite H. Qed.

Lemma find_cons_Some (p : string) (c : ascii) (s : string) :
  (exists n, Py.find p s = Some n) -> exists n, Py.find p (String c s) = Some n.
Proof.
  intros [n H]. simpl. destruct (Py.startswith p (String c s)); [ eauto | ].
  rewrite H. simpl. eauto.
Qed.

Lemma contains_occurs (p s : string) : Py.contains p s = true <-> occurs p s.
Proof.
  unfold Py.contains, occurs. split.
  - destruct (Py.find p s) as [n |] eqn:E; [ | discriminate ].
    intros _. exists (Py.take n s), (Py.drop (n + String.length p) s).
    now apply find_Some_split.
  - intros (pre & post & ->).
    assert (H : exists n, Py.find p (pre +:+ p +:+ post) = Some n).
    { induction pre as [| c pre IH].
      - exists 0. apply find_startswith. cbn [String.append].
        apply startswith_append.
      - cbn [String.append]. apply find_cons_Some. exact IH. }
    destruct H as [n ->]. reflexivity.
Qed.

Lemma occurs_trans (p q s : string) : occurs p q -> occurs q s -> occurs p s.
Proof.
  intros (a & b & ->) (c & d & ->). exists (c +:+ a), (b +:+ d).
  now rewrite !append_assoc.
Qed.

Lemma map_chars_append (f : ascii -> ascii) (a b : string) :
  Py.map_chars f (a +:+ b) = Py.map_chars f a +:+ Py.map_chars f b.
Proof. induction a as [| x a IH]; simpl; [ reflexivity | now rewrite IH ]. Qed.

Lemma occurs_upper (p s : string) : occurs p s -> occurs (Py.upper p) (Py.upper s).
Proof.
  intros (a & b & ->). exists (Py.upper a), (Py.upper b).
  unfold Py.upper. now rewrite !map_chars_append.
Qed.

(** ** [strip] and trimmed strings *)

Lemma lstrip_first (s : string) : not_space (first_char (Py.lstrip s)).
Proof.
  induction s as [| c s IH]; simpl.
  - intros d [=].
  - destruct (Py.isspace c) eqn:E; [ exact IH | ].
    intros d [= <-]. exact E.
Qed.

Lemma rstrip_last (s : string) : not_space (last_char (Py.rstrip s)).
Proof.
  induction s as [| c s IH]; simpl.
  - intros d [=].
  - destruct (Py.rstrip s) as [| r rs] eqn:R.
    + destruct (Py.isspace c) eqn:E; simpl; intros d [=]. now subst d.
    + change (last_char (String c (String r rs)))
        with (match last_char (String r rs) with Some d => Some d | None => Some c end).
      destruct (last_char (String r rs)) as [d |] eqn:L; [ exact IH | ].
      apply last_char_None in L. discriminate.
Qed.

Lemma rstrip_first (s : string) :
  not_space (first_char s) -> not_space (first_char (Py.rstrip s)).
Proof.
  destruct s as [| c s]; simpl; [ auto | ].
  intros H. destruct (Py.rstrip s); [ destruct (Py.isspace c) | ]; simpl; auto.
  intros d [=].
Qed.

Lemma strip_trimmed (s : string) : trimmed (Py.strip s).
Proof.
  split.
  - apply rstrip_first, lstrip_first.
  - apply rstrip_last.
Qed.

Lemma rstrip_fixed (s : string) : not_space (last_char s) -> Py.rstrip s = s.
Proof.
  induction s as [| c s IH]; simpl; [ reflexivity | ].
  intros H. destruct (last_char s) as [d |] eqn:L.
  - rewrite (IH H). destruct s; [ discriminate | reflexivity ].
  - apply last_char_None in L. subst s. simpl.
    now rewrite (H c eq_refl).
Qed.

Lemma trimmed_strip (s : string) : trimmed s -> Py.strip s = s.
Proof.
  intros [Hf Hl]. unfold Py.strip.
  assert (E : Py.lstrip s = s).
  { destruct s as [| c s]; simpl; [ reflexivity | ]. now rewrite (Hf c eq_refl). }
  rewrite E. now apply rstrip_fixed.
Qed.





(** ** The normaliser keeps its result trimmed and mentioning the state *)

Lemma first_char_take (k : nat) (s : string) :
  0 < k -> first_char (Py.take k s) = first_char s.
Proof. destruct k; [ lia | ]. now destruct s. Qed.

Lemma last_char_drop (n : nat) (s : string) :
  Py.drop n s <> "" -> last_char (Py.drop n s) = last_char s.
Proof.
  intros H. rewrite <- (take_drop n s) at 2. rewrite last_char_append.
  destruct (last_char (Py.drop n s)) eqn:L; [ reflexivity | ].
  apply last_char_None in L. contradiction.
Qed.

(** What an iteration of the suite loop can do to the string. *)
Lemma suite_comma_step_cases (s pattern replacement : string) :
  suite_comma_step s (pattern, replacement) = s \/
  exists pos k,
    Py.find pattern s = Some pos /\
    (0 < k \/ first_char s = Some " "%char) /\
    suite_comma_step s (pattern, replacement)
    = Py.take k s +:+ replacement +:+ Py.drop (pos + String.length pattern) s.
Proof.
  unfold suite_comma_step.
  destruct (_ && _); [ | now left ].
  destruct (Py.find pattern s) as [pos |] eqn:F; [ | now left ].
  destruct (0 <? pos) eqn:P; [ | now left ]. apply Nat.ltb_lt in P.
  destruct (Py.char_at (pos - 1) s) as [cb |] eqn:C; [ | now left ].
  destruct (negb _).
  - right. exists pos, pos. auto.
  - destruct (Ascii.eqb cb " ") eqn:E; [ | now left ].
    right. exists pos, (pos - 1). repeat split; auto.
    destruct (pos - 1) eqn:K; [ right | left; lia ].
    apply Ascii.eqb_eq in E. subst cb. destruct s; [ discriminate | ].
    simpl in C. now injection C as ->.
Qed.

Lemma suite_comma_step_trimmed (s pattern : string) :
  pattern <> "" ->
  trimmed s -> trimmed (suite_comma_step s (pattern, ", " +:+ pattern)).
Proof.
  intros Hp [Hf Hl].
  destruct (suite_comma_step_cases s pattern (", " +:+ pattern))
    as [-> | (pos & k & F & Hk & ->)]; [ now split | ].
  destruct Hk as [Hk | Hsp]; [ | now specialize (Hf _ Hsp) ].
  split.
  - rewrite first_char_append, (first_char_take k s Hk).
    destruct (first_char s) as [c |]; [ exact Hf | ].
    intros d [= <-]. reflexivity.
  - assert (E : Py.drop pos s = pattern +:+ Py.drop (pos + String.length pattern) s).
    { rewrite <- drop_drop. apply startswith_split. now apply find_Some. }
    assert (Hne : Py.drop pos s <> "").
    { rewrite E. destruct pattern; [ congruence | discriminate ]. }
    rewrite last_char_append, append_assoc, last_char_append, <- E.
    rewrite (last_char_drop pos s Hne).
    destruct (last_char s) as [c |] eqn:L; [ exact Hl | ].
    apply last_char_None in L. subst s. now destruct pos.
Qed.

Lemma suite_commas_trimmed (s : string) : trimmed s -> trimmed (suite_commas s).
Proof.
  unfold suite_commas, format_suite_patterns. cbn [fold_left]. intros H.
  repeat (match goal with
          | |- trimmed (suite_comma_step _ (?p, _)) =>
              apply (suite_comma_step_trimmed _ p); [ discriminate | ]
          end).
  exact H.
Qed.

Lemma add_state_trimmed (s : string) : trimmed s -> trimmed (add_state s).
Proof.
  intros [Hf Hl]. unfold add_state. destruct (_ && _); [ | now split ].
  split.
  - rewrite first_char_append. destruct (first_char s); [ exact Hf | ].
    intros d [= <-]. reflexivity.
  - rewrite last_char_append. intros d [= <-]. reflexivity.
Qed.

Lemma replace_from_nonempty (old new : string) (c : ascii) (s : string) :
  new <> "" -> Py.replace_from old new 0 (String c s) <> "".
Proof.
  intros Hn. simpl. destruct (Py.startswith old (String c s)); [ | discriminate ].
  destruct new; [ congruence | discriminate ].
Qed.

Lemma replace_from_last (old new : string) (s : string) :
  new <> "" ->
  not_space (last_char new) ->
  not_space (last_char s) ->
  forall k, not_space (last_char (Py.replace_from old new k s)).
Proof.
  intros Hn Hnew. induction s as [| c s IH]; intros Hs k; simpl.
  - intros d [=].
  - assert (Hs' : not_space (last_char s)).
    { simpl in Hs. destruct (last_char s); [ exact Hs | intros d [=] ]. }
    destruct k as [| k]; [ | now apply IH ].
    destruct (Py.startswith old (String c s)).
    + rewrite last_char_append.
      destruct (last_char (Py.replace_from old new _ s)) eqn:L; [ | exact Hnew ].
      rewrite <- L. now apply IH.
    + simpl. destruct (last_char (Py.replace_from old new 0 s)) eqn:L.
      * rewrite <- L. now apply IH.
      * apply last_char_None in L. destruct s as [| c' s'].
        -- exact Hs.
        -- now apply replace_from_nonempty in L.
Qed.

Lemma replace_first (old new : string) (s : string) :
  not_space (first_char new) -> new <> "" ->
  not_space (first_char s) ->
  not_space (first_char (Py.replace old new s)).
Proof.
  intros Hnew Hn Hs. destruct s as [| c s]; [ exact Hs | ].
  unfold Py.replace. simpl. destruct (Py.startswith old (String c s)); [ | exact Hs ].
  rewrite first_char_append. destruct (first_char new) eqn:F; [ exact Hnew | ].
  destruct new; [ congruence | discriminate ].
Qed.

Lemma replace_occurs (old new : string) (s : string) :
  old <> "" ->
  Py.contains old s = true -> occurs new (Py.replace old new s).
Proof.
  intros Ho. unfold Py.contains, Py.replace.
  induction s as [| c s IH]; simpl.
  - destruct old; [ congruence | discriminate ].
  - destruct (Py.startswith old (String c s)).
    + intros _. exists "", (Py.replace_from old new (String.length old - 1) s).
      reflexivity.
    + destruct (Py.find old s); simpl; [ | discriminate ].
      intros _. destruct (IH eq_refl) as (pre & post & ->).
      exists (String c pre), post. reflexivity.
Qed.

Lemma add_county_trimmed (county s : string) : trimmed s -> trimmed (add_county county s).
Proof.
  intros [Hf Hl]. unfold add_county.
  destruct (_ && _); [ | now split ].
  destruct (Py.contains ", KY" s); [ | now split ].
  split.
  - apply replace_first; [ intros d [= <-]; reflexivity | discriminate | exact Hf ].
  - apply replace_from_last; [ discriminate | | exact Hl ].
    rewrite !last_char_append. intros d [= <-]. reflexivity.
Qed.

(** The result of the normaliser is trimmed. *)
Lemma format_address_trimmed (address county : string) :
  trimmed (format_address address county).
Proof.
  unfold format_address. destruct (negb (Py.truthy address)).
  - split; intros d [=].
  - apply add_county_trimmed, add_state_trimmed, suite_commas_trimmed, strip_trimmed.
Qed.

Lemma add_state_mentions_state (s : string) : occurs "KY" (Py.upper (add_state s)).
Proof.
  unfold add_state.
  destruct (Py.contains "KY" (Py.upper s)) eqn:K; simpl.
  - now apply contains_occurs.
  - destruct (Py.contains "KENTUCKY" (Py.upper s)) eqn:K'; simpl.
    + apply contains_occurs in K'. apply (occurs_trans _ "KENTUCKY"); [ | exact K' ].
      exists "KENTUC", "". reflexivity.
    + exists (Py.upper s +:+ ", "), "". unfold Py.upper.
      rewrite map_chars_append, append_assoc. reflexivity.
Qed.

Lemma add_county_mentions_state (county s : string) :
  occurs "KY" (Py.upper s) -> occurs "KY" (Py.upper (add_county county s)).
Proof.
  intros H. unfold add_county.
  destruct (_ && _); [ | exact H ].
  destruct (Py.contains ", KY" s) eqn:C; [ | exact H ].
  apply (occurs_trans _ (Py.upper (", " +:+ county +:+ " County, KY"))).
  - exists (Py.upper (", " +:+ county) +:+ " COUNTY, "), "". unfold Py.upper.
    rewrite <- append_assoc, map_chars_append, append_assoc. reflexivity.
  - apply occurs_upper. apply replace_occurs; [ discriminate | exact C ].
Qed.

(** A normalised address is left alone by rule 3. *)
Lemma add_state_format_address (address county : string) :
  address <> "" ->
  add_state (format_address address county) = format_address address county.
Proof.
  intros Hne. unfold format_address. destruct address; [ congruence | ].
  cbn [Py.truthy negb].
  set (b := add_county county _).
  assert (H : occurs "KY" (Py.upper b))
    by apply add_county_mentions_state, add_state_mentions_state.
  apply contains_occurs in H. unfold add_state. now rewrite H.
Qed.

(** * Further properties of the code *)

(** ** Error keys and the grouping of the failure report *)

Lemma startswith_take (p : string) (n : nat) (s : string) :
  Py.startswith p (Py.take n s) = true -> Py.startswith p s = true.
Proof.
  revert n s. induction p as [| a p IH]; intros n s; [ reflexivity | ].
  destruct n as [| n], s as [| b s]; simpl; try discriminate.
  intros H. apply andb_true_iff in H as [Hab Hp].
  rewrite Hab. simpl. now apply (IH n).
Qed.

(** Before the place [find] reports there is no occurrence. *)
Lemma find_first (p s : string) :
  p <> "" -> forall n, Py.find p s = Some n -> Py.find p (Py.take n s) = None.
Proof.
  intros Hp. induction s as [| c s IH]; intros n; simpl.
  - destruct p; [ congruence | discriminate ].
  - destruct (Py.startswith p (String c s)) eqn:E.
    + intros [= <-]. simpl. destruct p; [ congruence | reflexivity ].
    + destruct (Py.find p s) as [m |] eqn:F; simpl; [ | discriminate ].
      intros [= <-]. simpl.
      destruct (Py.startswith p (String c (Py.take m s))) eqn:E'.
      * apply (startswith_take p (S m) (String c s)) in E'. congruence.
      * now rewrite (IH m eq_refl).
Qed.

Lemma any_char_append (f : ascii -> bool) (a b : string) :
  Py.any_char f (a +:+ b) = Py.any_char f a || Py.any_char f b.
Proof.
  induction a as [| c a IH]; simpl; [ reflexivity | ].
  now rewrite IH, orb_assoc.
Qed.

Lemma find_char_append (c : ascii) (a b : string) :
  Py.any_char (Ascii.eqb c) a = false ->
  Py.find (String c "") (a +:+ String c b) = Some (String.length a).
Proof.
  induction a as [| x a IH]; simpl.
  - intros _. now rewrite Ascii.eqb_refl.
  - intros H. apply orb_false_iff in H as [Hx Ha].
    rewrite Hx. simpl. now rewrite (IH Ha).
Qed.

Lemma take_append_length (a b : string) : Py.take (String.length a) (a +:+ b) = a.
Proof.
  induction a as [| x a IH]; simpl; [ now destruct b | now rewrite IH ].
Qed.

Lemma uint_no_colon (d : Decimal.uint) :
  Py.any_char (Ascii.eqb ":") (NilEmpty.string_of_uint d) = false.
Proof. induction d; simpl; auto. Qed.

Lemma str_of_nat_no_colon (n : nat) :
  Py.any_char (Ascii.eqb ":") (Py.str_of_nat n) = false.
Proof.
  unfold Py.str_of_nat, NilZero.string_of_uint.
  destruct (Nat.to_uint n); try reflexivity; apply (uint_no_colon (_ _)).
Qed.

(** X1.  The key of an "attempts failed" message is the text before its
    first colon, that is the message without the address: failures are
    grouped by their number of attempts, whatever the address, colons in
    it included. *)
Theorem error_key_exhausted (n : nat) (address original_address : string) :
  error_key (exhausted_message n address original_address)
  = "All " +:+ Py.str_of_nat n +:+ " geocoding attempts failed for".
Proof.
  unfold exhausted_message, error_key.
  set (tail := Py.or_else original_address address).
  set (head := "All " +:+ Py.str_of_nat n +:+ " geocoding attempts failed for").
  assert (E : "All " +:+ Py.str_of_nat n +:+ " geocoding attempts failed for: " +:+ tail
              = head +:+ String ":" (String " " tail)).
  { unfold head. rewrite !append_assoc. reflexivity. }
  rewrite E.
  assert (Hc : Py.any_char (Ascii.eqb ":") head = false).
  { unfold head. rewrite !any_char_append, str_of_nat_no_colon. reflexivity. }
  unfold Py.contains, Py.split_head.
  rewrite (find_char_append ":" head _ Hc). apply take_append_length.
Qed.

(** X2.  An error key has no colon in it, and the message it is taken
    from starts with it. *)
Theorem error_key_prefix (e : string) :
  Py.contains ":" (error_key e) = false /\
  exists rest, e = error_key e +:+ rest.
Proof.
  unfold error_key, Py.contains, Py.split_head.
  destruct (Py.find ":" e) as [n |] eqn:F.
  - split.
    + now rewrite (find_first ":" e ltac:(discriminate) n F).
    + exists (Py.drop n e). symmetry. apply take_drop.
  - rewrite F. split; [ reflexivity | ]. exists "". now rewrite append_nil_r.
Qed.

Lemma keep_first_snoc (l : list string) (x : string) :
  keep_first (l ++ [x]) = keep_first l ++ (if mem x l then [] else [x]).
Proof.
  induction l as [| y l IH]; simpl; [ reflexivity | ].
  rewrite IH, List.filter_app. f_equal. f_equal.
  rewrite (String.eqb_sym x y).
  destruct (String.eqb y x) eqn:E; simpl.
  - destruct (mem x l); simpl; [ reflexivity | ].
    rewrite String.eqb_sym, E. reflexivity.
  - destruct (mem x l); simpl; [ reflexivity | ].
    rewrite String.eqb_sym, E. reflexivity.
Qed.

Lemma mem_keep_first (x : string) (l : list string) : mem x (keep_first l) = mem x l.
Proof.
  destruct (mem x l) eqn:M.
  - apply mem_In. apply keep_first_In. now apply mem_In.
  - destruct (mem x (keep_first l)) eqn:M'; [ | reflexivity ].
    apply (proj1 (mem_In _ _)), (proj1 (keep_first_In _ _)), (proj2 (mem_In _ _)) in M'.
    congruence.
Qed.

Lemma error_types_snoc (failed : list failure) (f : failure) :
  error_types (failed ++ [f]) = file_failure f (error_types failed).
Proof. unfold error_types. now rewrite fold_left_app. Qed.

Lemma filter_key_absent (failed : list failure) (k : string) :
  mem k (map failure_key failed) = false ->
  List.filter (fun f => String.eqb (failure_key f) k) failed = [].
Proof.
  induction failed as [| g failed IH]; simpl; [ reflexivity | ].
  rewrite (String.eqb_sym k). intros H. apply orb_false_iff in H as [Hg Hrest].
  rewrite Hg. now apply IH.
Qed.

(** Filing one more failure into groups that are already as [grouped]
    describes them. *)
Lemma file_failure_grouped (failed : list failure) (f : failure) (ks : list string) :
  List.NoDup ks ->
  file_failure f
    (map (fun k => (k, List.filter (fun g => String.eqb (failure_key g) k) failed)) ks)
  = map (fun k => (k, List.filter (fun g => String.eqb (failure_key g) k) (failed ++ [f]))) ks
    ++ (if mem (failure_key f) ks
        then []
        else [(failure_key f, [f])]).
Proof.
  induction ks as [| k ks IH]; intros Hnd; [ reflexivity | ].
  inversion Hnd as [| k' ks' Hk Hks]; subst. cbn [map file_failure mem existsb].
  fold (failure_key f). fold (mem (failure_key f) ks).
  rewrite List.filter_app. cbn [List.filter].
  rewrite (String.eqb_sym (failure_key f) k).
  destruct (String.eqb k (failure_key f)) eqn:E; cbn [orb app].
  - apply String.eqb_eq in E. subst k. rewrite app_nil_r. f_equal.
    apply map_ext_in. intros k Hin. f_equal.
    rewrite List.filter_app. cbn [List.filter].
    cbn beta.
    destruct (String.eqb_spec (failure_key f) k) as [<- | _]; [ contradiction | ].
    now rewrite app_nil_r.
  - rewrite app_nil_r, IH by assumption. reflexivity.
Qed.

(** X3.  The failure report groups the failures by error key: the groups
    come in the order in which their keys first appear, and each group
    holds exactly the failures with its key, in the order in which they
    were filed.  So no failure is lost or listed twice, no group is
    empty and no key has two groups. *)
Theorem error_types_grouped (failed : list failure) :
  error_types failed = grouped failed.
Proof.
  induction failed as [| f failed IH] using rev_ind; [ reflexivity | ].
  rewrite error_types_snoc, IH. unfold grouped.
  rewrite (file_failure_grouped failed f _ (keep_first_NoDup _)).
  rewrite map_app. cbn [map]. rewrite keep_first_snoc, map_app.
  f_equal. rewrite mem_keep_first.
  destruct (mem (failure_key f) (map failure_key failed)) eqn:M; [ reflexivity | ].
  cbn [map]. rewrite List.filter_app, (filter_key_absent _ _ M).
  cbn [List.filter app]. now rewrite String.eqb_refl.
Qed.

(** ** What the ingestor hands on *)

Lemma strip_strip (s : string) : Py.strip (Py.strip s) = Py.strip s.
Proof. apply trimmed_strip, strip_trimmed. Qed.

Lemma stripped_cell_trimmed (k : nat) (row : list string) :
  Py.strip (stripped_cell k row) = stripped_cell k row.
Proof.
  unfold stripped_cell. destruct (_ && _); [ apply strip_strip | reflexivity ].
Qed.

Lemma format_address_nonempty (address county : string) :
  address <> "" -> format_address address county <> "".
Proof.
  intros Hne E.
  pose proof (add_state_format_address address county Hne) as H.
  rewrite E in H. discriminate.
Qed.

Lemma yielded_length (i : nat) (row : list string) : List.length (yielded i row) <= 2.
Proof.
  unfold yielded, ingest_row.
  destruct (List.length row <? 3); simpl; [ lia | ].
  destruct (Py.truthy (stripped_cell 1 row)), (is_mobile (row_name i row)),
    (Py.truthy (stripped_cell 2 row)); simpl; lia.
Qed.

Lemma yielded_from_length (data : list (list string)) :
  forall i, List.length (yielded_from i data) <= 2 * List.length data.
Proof.
  induction data as [| row data IH]; intros i; simpl; [ lia | ].
  rewrite length_app. pose proof (yielded_length i row). specialize (IH (S i)). lia.
Qed.

(** X4.  Every record the ingestor returns is well formed: its address is
    the normalised form of its original address, empty exactly when the
    original address is empty; the original address and the county carry
    no surrounding whitespace; its location number is 1 or 2; and its row
    number is that of a data row of the sheet, between 2 and the number
    of rows. *)
Theorem ingested_records_wellformed (rows : list (list string)) (r : shop) :
  In r (fetch_coffee_shops rows) ->
  address r = format_address (original_address r) (county r) /\
  (address r = "" <-> original_address r = "") /\
  Py.strip (original_address r) = original_address r /\
  Py.strip (county r) = county r /\
  (location_num r = 1 \/ location_num r = 2) /\
  2 <= row_number r <= List.length rows.
Proof.
  destruct rows as [| header data]; [ intros [] | ].
  intros Hin. rewrite fetch_yielded in Hin.
  apply yielded_from_In in Hin as (k & row & Hk & Hin).
  assert (Hlt : k < List.length data) by (apply nth_error_Some; congruence).
  assert (Hlen : 3 <= List.length row).
  { destruct (Nat.lt_ge_cases (List.length row) 3) as [Hs | Hl]; [ | exact Hl ].
    rewrite (yielded_short_row _ _ Hs) in Hin. destruct Hin. }
  destruct (yielded_fields _ row r Hlen Hin) as (Hc & Hrow & Hloc).
  assert (Hfields : exists j,
             original_address r = stripped_cell j row /\
             address r = format_address (stripped_cell j row) (stripped_cell 5 row) /\
             (location_num r = 1 \/ location_num r = 2)).
  { destruct Hloc as [(Hl & _ & Ho & Ha) | (Hl & _ & Ho & Ha)];
      [ exists 1 | exists 2 ]; auto. }
  destruct Hfields as (j & Ho & Ha & Hl).
  rewrite Hc, Ho, Ha. repeat split; try apply stripped_cell_trimmed; auto.
  - intros E. destruct (stripped_cell j row) eqn:Ej; [ reflexivity | ].
    now apply format_address_nonempty in E.
  - intros ->. reflexivity.
  - lia.
  - simpl. lia.
Qed.

Lemma ingested_records_wellformed_witness :
  address (Shop "Cup & Saucer (Location 2)" "4 Oak Rd, Bourbon County, KY" "4 Oak Rd" "Bourbon" 2 2)
  = format_address "4 Oak Rd" "Bourbon".
Proof.
  exact (proj1 (ingested_records_wellformed
                  [ ["Name"; "Address 1"; "Address 2"];
                    ["Cup & Saucer"; "12 Main St, Paris, KY 40361"; " 4 Oak Rd "; ""; ""; "Bourbon "] ]
                  (Shop "Cup & Saucer (Location 2)" "4 Oak Rd, Bourbon County, KY" "4 Oak Rd" "Bourbon" 2 2)
                  ltac:(vm_compute; tauto))).
Defined.

(** X5.  The ingestor returns at most two records per data row: at most
    twice as many records as the sheet has rows below the header, and
    none for a sheet that is empty or has a header only. *)
Theorem fetch_count_bound (rows : list (list string)) :
  List.length (fetch_coffee_shops rows) <= 2 * (List.length rows - 1).
Proof.
  destruct rows as [| header data]; [ simpl; lia | ].
  rewrite fetch_yielded. pose proof (yielded_from_length data 1). simpl. lia.
Qed.

Lemma lower_upper_char (c : ascii) :
  Py.lower_char (Py.upper_char c) = Py.lower_char c.
Proof.
  destruct c as [b0 b1 b2 b3 b4 b5 b6 b7].
  destruct b0, b1, b2, b3, b4, b5, b6, b7; reflexivity.
Qed.

Lemma lower_lower_char (c : ascii) :
  Py.lower_char (Py.lower_char c) = Py.lower_char c.
Proof.
  destruct c as [b0 b1 b2 b3 b4 b5 b6 b7].
  destruct b0, b1, b2, b3, b4, b5, b6, b7; reflexivity.
Qed.

Lemma map_chars_map_chars (f g : ascii -> ascii) (s : string) :
  Py.map_chars f (Py.map_chars g s) = Py.map_chars (fun c => f (g c)) s.
Proof. induction s as [| c s IH]; simpl; [ reflexivity | now rewrite IH ]. Qed.

Lemma map_chars_ext (f g : ascii -> ascii) (s : string) :
  (forall c, f c = g c) -> Py.map_chars f s = Py.map_chars g s.
Proof. intros H. induction s as [| c s IH]; simpl; [ reflexivity | now rewrite H, IH ]. Qed.

Lemma upper_char_ascii (c : ascii) :
  Py.is_ascii_char c = true -> Py.is_ascii_char (Py.upper_char c) = true.
Proof.
  destruct c as [b0 b1 b2 b3 b4 b5 b6 b7].
  destruct b0, b1, b2, b3, b4, b5, b6, b7; intros H;
    first [ reflexivity | discriminate H ].
Qed.

Lemma lower_char_ascii (c : ascii) :
  Py.is_ascii_char c = true -> Py.is_ascii_char (Py.lower_char c) = true.
Proof.
  destruct c as [b0 b1 b2 b3 b4 b5 b6 b7].
  destruct b0, b1, b2, b3, b4, b5, b6, b7; intros H;
    first [ reflexivity | discriminate H ].
Qed.

Lemma map_chars_ascii (f : ascii -> ascii) (s : string) :
  (forall c, Py.is_ascii_char c = true -> Py.is_ascii_char (f c) = true) ->
  Py.is_ascii s = true -> Py.is_ascii (Py.map_chars f s) = true.
Proof.
  intros Hf. induction s as [| c s IH]; cbn [Py.is_ascii Py.map_chars]; [ auto | ].
  intros H. apply andb_prop in H as [Hc Hs]. now rewrite (Hf c Hc), (IH Hs).
Qed.

(** X6.  On a name of ASCII characters the mobile-service keywords are
    recognised whatever the case of the letters of the name: its upper
    case and lower case forms are ASCII names again, and the test gives
    the same result on them. *)
Theorem is_mobile_case_insensitive (name : string) :
  Py.is_ascii name = true ->
  Py.is_ascii (Py.upper name) = true /\
  Py.is_ascii (Py.lower name) = true /\
  is_mobile (Py.upper name) = is_mobile name /\
  is_mobile (Py.lower name) = is_mobile name.
Proof.
  intros Hascii.
  split; [ now apply map_chars_ascii; [ apply upper_char_ascii | ] | ].
  split; [ now apply map_chars_ascii; [ apply lower_char_ascii | ] | ].
  unfold is_mobile, Py.upper, Py.lower. split.
  - rewrite map_chars_map_chars.
    now rewrite (map_chars_ext _ Py.lower_char name lower_upper_char).
  - rewrite map_chars_map_chars.
    now rewrite (map_chars_ext _ Py.lower_char name lower_lower_char).
Qed.

Lemma is_mobile_case_insensitive_witness :
  is_mobile (Py.upper "Bean Wagon (Coffee Truck)") = is_mobile "Bean Wagon (Coffee Truck)".
Proof.
  exact (proj1 (proj2 (proj2 (is_mobile_case_insensitive "Bean Wagon (Coffee Truck)"
                                eq_refl)))).
Defined.

(** ** The resolver, whatever the service does *)

Lemma flat_map_length_le {X Y : Type} (g : X -> list Y) (l : list X) :
  (forall x, List.length (g x) <= 1) -> List.length (flat_map g l) <= List.length l.
Proof.
  intros H. induction l as [| x l IH]; simpl; [ lia | ].
  rewrite length_app. specialize (H x). lia.
Qed.

Lemma append_new_length (x : string) (acc : list string) :
  List.length (append_new x acc) <= S (List.length acc).
Proof.
  unfold append_new. destruct (negb (mem x acc)); [ | lia ].
  rewrite length_app. simpl. lia.
Qed.

Lemma fold_append_new_length (l : list string) :
  forall acc,
    List.length (fold_left (fun a v => append_new v a) l acc)
    <= List.length acc + List.length l.
Proof.
  induction l as [| x l IH]; intros acc; simpl; [ lia | ].
  specialize (IH (append_new x acc)).
  pose proof (append_new_length x acc). lia.
Qed.

(** X7.  An address has at most 26 candidates: itself, one per suite
    pattern, the address without suite fragments, and one per entry of
    the abbreviation table. *)
Theorem candidate_count_bound (address : string) :
  List.length (address_attempts address) <= 26.
Proof.
  rewrite address_attempts_fold.
  pose proof (fold_append_new_length (variants address) [address]) as H.
  assert (Hv : List.length (variants address) <= 25).
  { unfold variants, suite_variants, no_suite_variant. rewrite !length_app.
    pose proof (flat_map_length_le
                  (fun pattern => if Py.contains pattern address
                                  then [suite_base_address address pattern] else [])
                  geocode_suite_patterns) as H1.
    pose proof (flat_map_length_le (abbrev_variant address) street_abbrev_variations) as H2.
    assert (H1' := H1 ltac:(intros x; cbn beta;
                            destruct (Py.contains x address); simpl; lia)).
    assert (H2' := H2 ltac:(intros x; unfold abbrev_variant;
                            destruct (Py.contains (fst x) address);
                            [ | destruct (Py.contains (snd x) address) ]; simpl; lia)).
    change (List.length geocode_suite_patterns) with 12 in H1'.
    change (List.length street_abbrev_variations) with 12 in H2'.
    destruct (negb _); cbn [List.length]; lia. }
  cbn [List.length] in H. lia.
Qed.

Section ResolverRuns.

Variable service_state : Type.
Variable service : service_state -> string -> response * service_state.
Variable float_of_string : string -> option float.

#[local] Abbreviation World := (world service_state).
#[local] Abbreviation geocode := (geocode_address service_state service float_of_string).
#[local] Abbreviation answers := (responses service_state service).
#[local] Abbreviation state_after := (service_after service_state service).
#[local] Abbreviation fails := (attempt_fails float_of_string).
#[local] Abbreviation read := (read_response float_of_string).

Lemma responses_length (queries : list string) :
  forall s, List.length (answers queries s) = List.length queries.
Proof. induction queries as [| q l IH]; intros s; simpl; [ reflexivity | now rewrite IH ]. Qed.

Lemma read_Some_matches (r : response) (c : coordinates) :
  read r = Some c ->
  exists first rest best,
    r = Matches (first :: rest) /\
    best_result first rest = Some best /\
    parse_coordinates float_of_string best = Some c.
Proof.
  destruct r as [| | | [| first rest]]; cbn [read_response]; try discriminate.
  destruct (best_result first rest) as [best |] eqn:B; [ | discriminate ].
  intros H. exists first, rest, best. auto.
Qed.

(** A list of responses either fails throughout or has a first one that
    can be read. *)
Lemma first_readable (l : list response) :
  Forall fails l \/
  exists i r c,
    nth_error l i = Some r /\ Forall fails (firstn i l) /\ read r = Some c.
Proof.
  induction l as [| r l IH]; [ left; constructor | ].
  destruct (read r) as [c |] eqn:R.
  - right. exists 0, r, c. repeat split; auto.
  - apply attempt_fails_read in R. destruct IH as [IH | (i & r' & c & Hn & Hf & Hr)].
    + left. now constructor.
    + right. exists (S i), r', c. repeat split; auto. simpl. now constructor.
Qed.

(** The three ways a call of [geocode_address] can go. *)
Lemma geocode_cases (address original_address : string) (w : World) :
  (address = "" /\
   geocode address original_address w = (inr "No address provided", w))
  \/
  (address <> "" /\
   Forall fails (answers (address_attempts address) (svc _ w)) /\
   geocode address original_address w
   = (inr (exhausted_message (List.length (address_attempts address))
             address original_address),
      {| svc := state_after (address_attempts address) (svc _ w);
         calls := calls _ w ++ address_attempts address;
         slept := slept _ w + List.length (address_attempts address) |}))
  \/
  (address <> "" /\
   exists i first rest best c,
     i < List.length (address_attempts address) /\
     Forall fails (firstn i (answers (address_attempts address) (svc _ w))) /\
     nth_error (answers (address_attempts address) (svc _ w)) i
       = Some (Matches (first :: rest)) /\
     best_result first rest = Some best /\
     parse_coordinates float_of_string best = Some c /\
     geocode address original_address w
     = (inl c,
        {| svc := state_after (firstn (S i) (address_attempts address)) (svc _ w);
           calls := calls _ w ++ firstn (S i) (address_attempts address);
           slept := slept _ w + S i |})).
Proof.
  destruct address as [| a address']; [ left; split; reflexivity | right ].
  set (address := String a address').
  assert (Hne : address <> "") by discriminate.
  unfold geocode_address. cbn [Py.truthy negb address].
  fold address.
  destruct (first_readable (answers (address_attempts address) (svc _ w)))
    as [Hall | (i & r & c & Hn & Hf & Hr)].
  - left. repeat split; auto.
    now rewrite (try_attempts_all_fail _ service float_of_string _ w Hall).
  - right. split; [ exact Hne | ].
    rewrite (try_attempts_first_success _ service float_of_string
               i _ w r c Hf Hn Hr).
    apply read_Some_matches in Hr as (first & rest & best & -> & Hb & Hc).
    exists i, first, rest, best, c. repeat split; auto.
    rewrite <- (responses_length (address_attempts address) (svc _ w)).
    apply nth_error_Some. congruence.
Qed.

(** X8.  Whatever the service answers, a call of [geocode_address] sends
    requests for candidates only: for the first [n] candidates of the
    address, in their order, with [n] at most the number of candidates;
    and it sleeps one second per request, no more and no less. *)
Theorem geocode_requests (address original_address : string) (w : World) :
  exists n,
    n <= List.length (address_attempts address) /\
    calls _ (snd (geocode address original_address w))
    = calls _ w ++ firstn n (address_attempts address) /\
    slept _ (snd (geocode address original_address w)) = slept _ w + n /\
    svc _ (snd (geocode address original_address w))
    = state_after (firstn n (address_attempts address)) (svc _ w).
Proof.
  destruct (geocode_cases address original_address w)
    as [[_ E] | [(_ & _ & E) | (_ & i & first & rest & best & c & Hi & _ & _ & _ & _ & E)]];
    rewrite E; cbn [snd svc calls slept].
  - exists 0. cbn [firstn]. rewrite app_nil_r, Nat.add_0_r.
    repeat split; auto. lia.
  - exists (List.length (address_attempts address)). rewrite firstn_all.
    repeat split; auto.
  - exists (S i). repeat split; auto.
Qed.

(** X9.  [geocode_address] returns coordinates only when some request
    returned matches: the requests for the candidates before it all
    failed, the selection among the matches went through, the
    coordinates are those of the match it prefers, and no later
    candidate was sent. *)
Theorem geocode_success_sound (address original_address : string) (w w' : World)
    (c : coordinates) :
  geocode address original_address w = (inl c, w') ->
  address <> "" /\
  exists i first rest best,
    i < List.length (address_attempts address) /\
    Forall fails (firstn i (answers (address_attempts address) (svc _ w))) /\
    nth_error (answers (address_attempts address) (svc _ w)) i
      = Some (Matches (first :: rest)) /\
    best_result first rest = Some best /\
    parse_coordinates float_of_string best = Some c /\
    calls _ w' = calls _ w ++ firstn (S i) (address_attempts address).
Proof.
  intros H.
  destruct (geocode_cases address original_address w)
    as [[_ E] | [(_ & _ & E)
                | (Hne & i & first & rest & best & c' & Hi & Hf & Hn & Hb & Hc & E)]];
    rewrite E in H; try discriminate.
  injection H as <- <-. split; [ exact Hne | ].
  exists i, first, rest, best. repeat split; auto.
Qed.

(** X10.  [geocode_address] returns an error only in two cases: the
    address is empty, the error is "No address provided" and nothing is
    sent; or the request for every candidate failed, the error is the
    "attempts failed" message and every candidate was sent. *)
Theorem geocode_failure_sound (address original_address : string) (w w' : World)
    (e : string) :
  geocode address original_address w = (inr e, w') ->
  (address = "" /\ e = "No address provided" /\ w' = w)
  \/
  (address <> "" /\
   Forall fails (answers (address_attempts address) (svc _ w)) /\
   e = exhausted_message (List.length (address_attempts address))
         address original_address /\
   calls _ w' = calls _ w ++ address_attempts address).
Proof.
  intros H.
  destruct (geocode_cases address original_address w)
    as [[Hempty E] | [(Hne & Hall & E)
                     | (_ & i & first & rest & best & c & _ & _ & _ & _ & _ & E)]];
    rewrite E in H; try discriminate; injection H as <- <-.
  - left. auto.
  - right. repeat split; auto.
Qed.

End ResolverRuns.

Lemma geocode_success_sound_witness :
  "500 W Main St, Lexington, KY 40507" <> "" /\
  exists i first rest best,
    i < List.length (address_attempts "500 W Main St, Lexington, KY 40507") /\
    Forall (attempt_fails Mock.float_of_decimal)
      (firstn i (responses unit Mock.street_only
                   (address_attempts "500 W Main St, Lexington, KY 40507")
                   (svc unit Mock.fresh))) /\
    nth_error (responses unit Mock.street_only
                 (address_attempts "500 W Main St, Lexington, KY 40507")
                 (svc unit Mock.fresh)) i
      = Some (Matches (first :: rest)) /\
    best_result first rest = Some best /\
    parse_coordinates Mock.float_of_decimal best
      = Some (38.0498%float, (-84.5004)%float) /\
    calls unit
      {| svc := tt;
         calls := [ "500 W Main St, Lexington, KY 40507";
                    "500 W Main Street, Lexington, KY 40507" ];
         slept := 2 |}
    = calls unit Mock.fresh
      ++ firstn (S i) (address_attempts "500 W Main St, Lexington, KY 40507").
Proof.
  exact (geocode_success_sound unit Mock.street_only Mock.float_of_decimal
           "500 W Main St, Lexington, KY 40507" "500 W Main St Lexington"
           Mock.fresh
           {| svc := tt;
              calls := [ "500 W Main St, Lexington, KY 40507";
                         "500 W Main Street, Lexington, KY 40507" ];
              slept := 2 |}
           (38.0498%float, (-84.5004)%float)
           ltac:(vm_compute; reflexivity)).
Defined.

Lemma geocode_failure_sound_witness :
  ("4 Oak Rd, Bourbon County, KY" = "" /\
   "All 2 geocoding attempts failed for: 4 Oak Rd" = "No address provided" /\
   {| svc := tt;
      calls := [ "4 Oak Rd, Bourbon County, KY"; "4 Oak Road, Bourbon County, KY" ];
      slept := 2 |} = Mock.fresh)
  \/
  ("4 Oak Rd, Bourbon County, KY" <> "" /\
   Forall (attempt_fails Mock.float_of_decimal)
     (responses unit Mock.down_service
        (address_attempts "4 Oak Rd, Bourbon County, KY") (svc unit Mock.fresh)) /\
   "All 2 geocoding attempts failed for: 4 Oak Rd"
   = exhausted_message (List.length (address_attempts "4 Oak Rd, Bourbon County, KY"))
       "4 Oak Rd, Bourbon County, KY" "4 Oak Rd" /\
   calls unit
     {| svc := tt;
        calls := [ "4 Oak Rd, Bourbon County, KY"; "4 Oak Road, Bourbon County, KY" ];
        slept := 2 |}
   = calls unit Mock.fresh ++ address_attempts "4 Oak Rd, Bourbon County, KY").
Proof.
  exact (geocode_failure_sound unit Mock.down_service Mock.float_of_decimal
           "4 Oak Rd, Bourbon County, KY" "4 Oak Rd" Mock.fresh
           {| svc := tt;
              calls := [ "4 Oak Rd, Bourbon County, KY"; "4 Oak Road, Bourbon County, KY" ];
              slept := 2 |}
           "All 2 geocoding attempts failed for: 4 Oak Rd"
           ltac:(vm_compute; reflexivity)).
Defined.

(** X11.  The selection among the matches of an answer goes through
    exactly when every match is an object whose display name, if
    present, is a string.  The match then selected, from which the
    resolver reads its coordinates, is one of the matches returned; it
    mentions the state whenever some match does, and then no match
    before it does; when no match mentions the state it is the first
    match. *)
Theorem best_result_prefers_state (first : geo_match) (rest : list geo_match) :
  (forallb named (first :: rest) = false -> best_result first rest = None) /\
  (forallb named (first :: rest) = true ->
   exists best,
     best_result first rest = Some best /\
     (exists before after,
        first :: rest = before ++ best :: after /\
        forallb (fun r => negb (mentions_state r)) before = true /\
        (mentions_state best = true \/ before = [])) /\
     (existsb mentions_state (first :: rest) = true ->
      mentions_state best = true) /\
     (existsb mentions_state (first :: rest) = false ->
      best = first)).
Proof.
  split; [ apply best_result_not_named | ].
  intros Hnamed. exists (state_preferring first rest).
  split; [ now apply best_result_state_preferring | ].
  unfold state_preferring.
  assert (H : forall l : list geo_match,
             match List.find mentions_state l with
             | Some k =>
                 mentions_state k = true /\
                 existsb mentions_state l = true /\
                 exists before after,
                   l = before ++ k :: after /\
                   forallb (fun r => negb (mentions_state r)) before = true
             | None => existsb mentions_state l = false
             end).
  { induction l as [| r l IH]; simpl; [ reflexivity | ].
    destruct (mentions_state r) eqn:M; simpl.
    - repeat split; auto. exists [], l. auto.
    - destruct (List.find mentions_state l) as [k |]; [ | exact IH ].
      destruct IH as (Hk & He & before & after & -> & Hb).
      repeat split; auto. exists (r :: before), after. simpl. now rewrite M. }
  specialize (H (first :: rest)).
  destruct (List.find mentions_state (first :: rest)) as [k |].
  - destruct H as (Hk & He & before & after & E & Hb). repeat split.
    + exists before, after. auto.
    + auto.
    + intros Hf. congruence.
  - repeat split.
    + exists [], rest. auto.
    + intros Ht. congruence.
Qed.

Lemma best_result_prefers_state_witness :
  exists best,
    best_result
      (GeoMatch (Some (JString "West Main Street, Springfield, Ohio"))
         (Some (JString "39.9242")) (Some (JString "-83.8088")))
      [ GeoMatch (Some (JString "West Main Street, Lexington, KENTUCKY"))
          (Some (JString "38.0498")) (Some (JString "-84.5004")) ]
    = Some best /\
    (exists before after,
       [ GeoMatch (Some (JString "West Main Street, Springfield, Ohio"))
           (Some (JString "39.9242")) (Some (JString "-83.8088"));
         GeoMatch (Some (JString "West Main Street, Lexington, KENTUCKY"))
           (Some (JString "38.0498")) (Some (JString "-84.5004")) ]
       = before ++ best :: after /\
       forallb (fun r => negb (mentions_state r)) before = true /\
       (mentions_state best = true \/ before = [])) /\
    (existsb mentions_state
       [ GeoMatch (Some (JString "West Main Street, Springfield, Ohio"))
           (Some (JString "39.9242")) (Some (JString "-83.8088"));
         GeoMatch (Some (JString "West Main Street, Lexington, KENTUCKY"))
           (Some (JString "38.0498")) (Some (JString "-84.5004")) ] = true ->
     mentions_state best = true) /\
    (existsb mentions_state
       [ GeoMatch (Some (JString "West Main Street, Springfield, Ohio"))
           (Some (JString "39.9242")) (Some (JString "-83.8088"));
         GeoMatch (Some (JString "West Main Street, Lexington, KENTUCKY"))
           (Some (JString "38.0498")) (Some (JString "-84.5004")) ] = false ->
     best = GeoMatch (Some (JString "West Main Street, Springfield, Ohio"))
              (Some (JString "39.9242")) (Some (JString "-83.8088"))).
Proof.
  exact (proj2 (best_result_prefers_state
           (GeoMatch (Some (JString "West Main Street, Springfield, Ohio"))
              (Some (JString "39.9242")) (Some (JString "-83.8088")))
           [ GeoMatch (Some (JString "West Main Street, Lexington, KENTUCKY"))
               (Some (JString "38.0498")) (Some (JString "-84.5004")) ])
         eq_refl).
Defined.

(** ** The marker loop as a whole *)

Section LoopRuns.

Variable service_state : Type.
Variable service : service_state -> string -> response * service_state.
Variable float_of_string : string -> option float.
Variable overrides : gmap string coordinates.

#[local] Abbreviation World := (world service_state).
#[local] Abbreviation LoopState := (loop_state service_state).
#[local] Abbreviation step := (marker_step service_state service float_of_string overrides).
#[local] Abbreviation run_loop :=
  (add_coffee_shop_markers service_state service float_of_string overrides).
#[local] Abbreviation geocode := (geocode_address service_state service float_of_string).

(** The ways an iteration of the loop can go: nothing happens once an
    exception has left the loop; a record without address is skipped; an
    override or the geocoder gives coordinates, and the marker is placed
    or refused; the geocoder gives an error, which is filed. *)
Lemma marker_step_cases (st : LoopState) (s : shop) :
  (raised _ st = true /\ step st s = st)
  \/
  (raised _ st = false /\ has_address s = false /\ step st s = st)
  \/
  (raised _ st = false /\ has_address s = true /\
   exists c, overrides !! address s = Some c /\
     step st s
     = if locatable c then
         {| successful_markers := successful_markers _ st + 1;
            failed_geocoding := failed_geocoding _ st;
            manual_overrides_used := manual_overrides_used _ st + 1;
            markers := markers _ st ++ [ {| marker_name := name s; marker_location := c |} ];
            outside := outside _ st;
            raised := false |}
       else
         {| successful_markers := successful_markers _ st;
            failed_geocoding := failed_geocoding _ st;
            manual_overrides_used := manual_overrides_used _ st + 1;
            markers := markers _ st;
            outside := outside _ st;
            raised := true |})
  \/
  (raised _ st = false /\ has_address s = true /\ overrides !! address s = None /\
   exists c w',
     geocode (address s) (original_address s) (outside _ st) = (inl c, w') /\
     step st s
     = if locatable c then
         {| successful_markers := successful_markers _ st + 1;
            failed_geocoding := failed_geocoding _ st;
            manual_overrides_used := manual_overrides_used _ st;
            markers := markers _ st ++ [ {| marker_name := name s; marker_location := c |} ];
            outside := w';
            raised := false |}
       else
         {| successful_markers := successful_markers _ st;
            failed_geocoding := failed_geocoding _ st;
            manual_overrides_used := manual_overrides_used _ st;
            markers := markers _ st;
            outside := w';
            raised := true |})
  \/
  (raised _ st = false /\ has_address s = true /\ overrides !! address s = None /\
   exists e w',
     geocode (address s) (original_address s) (outside _ st) = (inr e, w') /\
     step st s
     = {| successful_markers := successful_markers _ st;
          failed_geocoding := failed_geocoding _ st ++
            [ {| failure_name := name s;
                 failure_original_address := original_address s;
                 failure_formatted_address := address s;
                 failure_error := e;
                 failure_row := row_number s |} ];
          manual_overrides_used := manual_overrides_used _ st;
          markers := markers _ st;
          outside := w';
          raised := false |}).
Proof.
  unfold marker_step, resolve, has_address.
  destruct (raised _ st); [ now left | right ].
  destruct (Py.truthy (address s)); cbn [negb]; [ right | now left ].
  destruct (overrides !! address s) as [c |] eqn:O.
  - left. repeat split. exists c. auto.
  - right.
    destruct (geocode_address _ _ _ _ _ _) as [[c | e] w'] eqn:G.
    + left. repeat split. exists c, w'. auto.
    + right. repeat split. exists e, w'. auto.
Qed.

Lemma overridden_Some (s : shop) (c : coordinates) :
  has_address s = true -> overrides !! address s = Some c -> overridden overrides s = true.
Proof.
  intros Ha Ho. unfold overridden. rewrite Ha, Ho. reflexivity.
Qed.

Lemma overridden_None (s : shop) :
  overrides !! address s = None -> overridden overrides s = false.
Proof.
  intros Ho. unfold overridden. rewrite Ho. apply andb_false_r.
Qed.

(** Once an exception has left the loop the state stays as it is. *)
Lemma loop_raised_stays (shops : list shop) :
  forall st : LoopState, raised _ st = true -> fold_left step shops st = st.
Proof.
  induction shops as [| s shops IH]; intros st H; cbn [fold_left]; [ reflexivity | ].
  assert (E : step st s = st) by (unfold marker_step; now rewrite H).
  rewrite E. now apply IH.
Qed.

Lemma loop_counts (shops : list shop) :
  forall st : LoopState,
    let final := fold_left step shops st in
    List.length (markers _ final) + successful_markers _ st
    = successful_markers _ final + List.length (markers _ st) /\
    successful_markers _ final + List.length (failed_geocoding _ final)
    <= successful_markers _ st + List.length (failed_geocoding _ st)
       + List.length (List.filter has_address shops) /\
    manual_overrides_used _ final
    <= manual_overrides_used _ st + List.length (List.filter (overridden overrides) shops) /\
    (manual_overrides_used _ st <= successful_markers _ st ->
     manual_overrides_used _ final
     <= successful_markers _ final + (if raised _ final then 1 else 0)) /\
    (raised _ final = false ->
     raised _ st = false /\
     successful_markers _ final + List.length (failed_geocoding _ final)
     = successful_markers _ st + List.length (failed_geocoding _ st)
       + List.length (List.filter has_address shops) /\
     manual_overrides_used _ final
     = manual_overrides_used _ st + List.length (List.filter (overridden overrides) shops)).
Proof.
  induction shops as [| s shops IH]; intros st; cbn [fold_left List.filter].
  { cbn [List.length]. repeat split; try lia; auto. }
  destruct (marker_step_cases st s)
    as [[Hr E] | [(Hr & Ha & E) | [(Hr & Ha & c & Ho & E)
       | [(Hr & Ha & Ho & c & w' & _ & E) | (Hr & Ha & Ho & e & w' & _ & E)]]]].
  - rewrite E, (loop_raised_stays shops st Hr). rewrite Hr.
    split; [ lia | ]. split; [ lia | ]. split; [ lia | ].
    split; [ lia | discriminate ].
  - specialize (IH (step st s)). cbv zeta in IH. rewrite E in IH |- *.
    rewrite Ha.
    assert (Hov : overridden overrides s = false)
      by (unfold overridden; now rewrite Ha).
    rewrite Hov. exact IH.
  - rewrite Ha, (overridden_Some s c Ha Ho). cbn [List.length].
    destruct (locatable c).
    + specialize (IH (step st s)). cbv zeta in IH. rewrite E in IH |- *.
      destruct IH as (I1 & I2 & I3 & I4 & I5).
      cbn [successful_markers failed_geocoding manual_overrides_used markers raised]
        in I1, I2, I3, I4, I5.
      rewrite length_app in I1. cbn [List.length] in I1.
      split; [ lia | ]. split; [ lia | ]. split; [ lia | ].
      split; intros H; [ lia | ].
      apply I5 in H. split; [ exact Hr | lia ].
    + rewrite E, loop_raised_stays by reflexivity.
      cbn [successful_markers failed_geocoding manual_overrides_used markers raised].
      split; [ lia | ]. split; [ lia | ]. split; [ lia | ].
      split; [ lia | discriminate ].
  - rewrite Ha, (overridden_None s Ho). cbn [List.length].
    destruct (locatable c).
    + specialize (IH (step st s)). cbv zeta in IH. rewrite E in IH |- *.
      destruct IH as (I1 & I2 & I3 & I4 & I5).
      cbn [successful_markers failed_geocoding manual_overrides_used markers raised]
        in I1, I2, I3, I4, I5.
      rewrite length_app in I1. cbn [List.length] in I1.
      split; [ lia | ]. split; [ lia | ]. split; [ lia | ].
      split; intros H; [ lia | ].
      apply I5 in H. split; [ exact Hr | lia ].
    + rewrite E, loop_raised_stays by reflexivity.
      cbn [successful_markers failed_geocoding manual_overrides_used markers raised].
      split; [ lia | ]. split; [ lia | ]. split; [ lia | ].
      split; [ lia | discriminate ].
  - rewrite Ha, (overridden_None s Ho). cbn [List.length].
    specialize (IH (step st s)). cbv zeta in IH. rewrite E in IH |- *.
    destruct IH as (I1 & I2 & I3 & I4 & I5).
    cbn [successful_markers failed_geocoding manual_overrides_used markers raised]
      in I1, I2, I3, I4, I5.
    rewrite length_app in I2, I5. cbn [List.length] in I2, I5.
    split; [ lia | ]. split; [ lia | ]. split; [ lia | ].
    split; intros H; [ lia | ].
    apply I5 in H. split; [ exact Hr | lia ].
Qed.

(** X12.  The books of the marker loop.  At any end of the loop the count
    of successes is the number of markers placed, markers and failure
    entries together are at most the records with a non-empty address,
    and the overrides counted are at most the records with an address
    that is a key of the table.  When no marker was refused, so that the
    function returns, the books balance: every record with a non-empty
    address ends as exactly one marker or one failure entry, and records
    without an address as neither; and the overrides counted are exactly
    the records with an address that is a key of the table, each of which
    got its marker. *)
Theorem loop_accounting (shops : list shop) (w : World) :
  (successful_markers _ (run_loop shops w) = List.length (markers _ (run_loop shops w)) /\
   successful_markers _ (run_loop shops w)
     + List.length (failed_geocoding _ (run_loop shops w))
   <= List.length (List.filter has_address shops) /\
   manual_overrides_used _ (run_loop shops w)
   <= List.length (List.filter (overridden overrides) shops) /\
   manual_overrides_used _ (run_loop shops w)
   <= successful_markers _ (run_loop shops w)
      + (if raised _ (run_loop shops w) then 1 else 0)) /\
  (raised _ (run_loop shops w) = false ->
   successful_markers _ (run_loop shops w)
     + List.length (failed_geocoding _ (run_loop shops w))
   = List.length (List.filter has_address shops) /\
   manual_overrides_used _ (run_loop shops w)
   = List.length (List.filter (overridden overrides) shops) /\
   manual_overrides_used _ (run_loop shops w) <= successful_markers _ (run_loop shops w)).
Proof.
  unfold add_coffee_shop_markers.
  destruct (loop_counts shops
              {| successful_markers := 0; failed_geocoding := [];
                 manual_overrides_used := 0; markers := []; outside := w;
                 raised := false |})
    as (I1 & I2 & I3 & I4 & I5).
  cbn [successful_markers failed_geocoding manual_overrides_used markers List.length] in *.
  specialize (I4 (le_n 0)).
  split; [ repeat split; lia | ].
  intros H. rewrite H in I4. apply I5 in H. lia.
Qed.

Lemma In_firstn_In {X : Type} (x : X) (n : nat) (l : list X) :
  In x (firstn n l) -> In x l.
Proof.
  intros H. rewrite <- (firstn_skipn n l). apply in_or_app. now left.
Qed.

Lemma has_address_nonempty (s : shop) : has_address s = true -> address s <> "".
Proof. unfold has_address. destruct (address s); [ discriminate | discriminate ]. Qed.

(** What an iteration adds to the log of requests and to the time slept. *)
Lemma marker_step_requests (st : LoopState) (s : shop) :
  (exists n,
     n <= List.length (address_attempts (address s)) /\
     (0 < n -> has_address s = true /\ overrides !! address s = None) /\
     calls _ (outside _ (step st s))
     = calls _ (outside _ st) ++ firstn n (address_attempts (address s)) /\
     slept _ (outside _ (step st s)) = slept _ (outside _ st) + n).
Proof.
  destruct (marker_step_cases st s)
    as [[Hr E] | [(Hr & Ha & E) | [(Hr & Ha & c & Ho & E)
       | [(Hr & Ha & Ho & c & w' & G & E) | (Hr & Ha & Ho & e & w' & G & E)]]]];
    rewrite E.
  - exists 0. cbn [firstn]. rewrite app_nil_r, Nat.add_0_r. repeat split; auto; lia.
  - exists 0. cbn [firstn]. rewrite app_nil_r, Nat.add_0_r. repeat split; auto; lia.
  - exists 0. cbn [firstn]. rewrite app_nil_r, Nat.add_0_r.
    destruct (locatable c); cbn [outside]; repeat split; auto; lia.
  - destruct (geocode_cases _ service float_of_string
                (address s) (original_address s) (outside _ st))
      as [[_ E'] | [(_ & _ & E')
         | (_ & i & first & rest & best & c' & Hi & _ & _ & _ & _ & E')]];
      rewrite E' in G; try discriminate. injection G as _ <-.
    exists (S i). destruct (locatable c); cbn [outside calls slept]; repeat split; auto.
  - destruct (geocode_cases _ service float_of_string
                (address s) (original_address s) (outside _ st))
      as [[Hempty E'] | [(_ & _ & E')
         | (_ & i & first & rest & best & c' & _ & _ & _ & _ & _ & E')]];
      rewrite E' in G; try discriminate; injection G as _ <-.
    + now apply has_address_nonempty in Ha.
    + exists (List.length (address_attempts (address s))).
      cbn [outside calls slept]. rewrite firstn_all. repeat split; auto.
Qed.

(** X13.  The marker loop sends requests only for candidates of records
    that have an address and no override: nothing is ever asked about a
    record without address or about an address the override table knows.
    It sleeps one second per request, over the whole loop. *)
Theorem loop_requests (shops : list shop) (w : World) :
  (forall q,
     In q (calls _ (outside _ (run_loop shops w))) ->
     In q (calls _ w) \/
     exists s, In s shops /\ address s <> "" /\ overrides !! address s = None /\
               In q (address_attempts (address s))) /\
  List.length (calls _ (outside _ (run_loop shops w))) + slept _ w
  = List.length (calls _ w) + slept _ (outside _ (run_loop shops w)).
Proof.
  unfold add_coffee_shop_markers.
  generalize {| successful_markers := 0; failed_geocoding := [];
                manual_overrides_used := 0; markers := []; outside := w;
                raised := false |}
    (eq_refl : outside _ {| successful_markers := 0; failed_geocoding := [];
                            manual_overrides_used := 0; markers := [];
                            outside := w; raised := false |} = w).
  intros st0 <-. revert st0.
  induction shops as [| s shops IH]; intros st; cbn [fold_left].
  - split; [ auto | lia ].
  - destruct (IH (step st s)) as [IHq IHn].
    destruct (marker_step_requests st s) as (n & Hn & Hpos & Hc & Hs).
    split.
    + intros q Hq. apply IHq in Hq as [Hq | (s' & Hs' & Hrest)].
      * rewrite Hc in Hq. apply in_app_or in Hq as [Hq | Hq]; [ now left | right ].
        assert (0 < n) as Hn0 by (destruct n; [ destruct Hq | lia ]).
        destruct (Hpos Hn0) as [Ha Ho].
        exists s. repeat split; auto.
        -- now left.
        -- now apply has_address_nonempty.
        -- now apply In_firstn_In in Hq.
      * right. exists s'. split; [ now right | exact Hrest ].
    + rewrite Hc, length_app, length_firstn in IHn. rewrite Hs in IHn. lia.
Qed.

(** Every failure the loop files is an exhausted resolution of one of the
    records. *)
Lemma loop_failures_from (shops : list shop) :
  forall (st : LoopState) (f : failure),
    In f (failed_geocoding _ (fold_left step shops st)) ->
    In f (failed_geocoding _ st) \/
    exists s,
      In s shops /\ address s <> "" /\ overrides !! address s = None /\
      f = {| failure_name := name s;
             failure_original_address := original_address s;
             failure_formatted_address := address s;
             failure_error :=
               exhausted_message (List.length (address_attempts (address s)))
                 (address s) (original_address s);
             failure_row := row_number s |}.
Proof.
  induction shops as [| s shops IH]; intros st f; cbn [fold_left]; [ auto | ].
  intros H. apply IH in H as [H | (s' & Hs' & Hrest)]; [ | right; exists s'; simpl; auto ].
  destruct (marker_step_cases st s)
    as [[Hr E] | [(Hr & Ha & E) | [(Hr & Ha & c & Ho & E)
       | [(Hr & Ha & Ho & c & w' & G & E) | (Hr & Ha & Ho & e & w' & G & E)]]]];
    rewrite E in H; try (destruct (locatable c)); cbn [failed_geocoding] in H; auto.
  apply in_app_or in H as [H | [<- | []]]; [ now left | right ].
  exists s. split; [ now left | ].
  pose proof (has_address_nonempty s Ha) as Hne.
  repeat split; auto.
  destruct (geocode_cases _ service float_of_string
              (address s) (original_address s) (outside _ st))
    as [[Hempty _] | [(_ & _ & E')
       | (_ & i & first & rest & best & c' & _ & _ & _ & _ & _ & E')]];
    [ contradiction | | ]; rewrite E' in G; try discriminate.
  injection G as <- _. reflexivity.
Qed.

(** X14.  A failure entry is filed only for a record with an address and
    without override, all of whose candidates failed: its error is the
    "attempts failed" message with the number of candidates of the
    record's address, never "No address provided", and its fields are
    those of the record. *)
Theorem loop_failures_exhausted (shops : list shop) (w : World) (f : failure) :
  In f (failed_geocoding _ (run_loop shops w)) ->
  exists s,
    In s shops /\ address s <> "" /\ overrides !! address s = None /\
    f = {| failure_name := name s;
           failure_original_address := original_address s;
           failure_formatted_address := address s;
           failure_error :=
             exhausted_message (List.length (address_attempts (address s)))
               (address s) (original_address s);
           failure_row := row_number s |}.
Proof.
  unfold add_coffee_shop_markers. intros H.
  apply loop_failures_from in H as [[] | H]. exact H.
Qed.

End LoopRuns.

Lemma loop_failures_exhausted_witness :
  exists s,
    In s [ Shop "Corner Cafe" "4 Oak Rd, Bourbon County, KY" "4 Oak Rd" "Bourbon" 1 2 ] /\
    address s <> "" /\ manual_coordinates !! address s = None /\
    Failure "Corner Cafe" "4 Oak Rd" "4 Oak Rd, Bourbon County, KY"
      "All 2 geocoding attempts failed for: 4 Oak Rd" 2
    = {| failure_name := name s;
         failure_original_address := original_address s;
         failure_formatted_address := address s;
         failure_error :=
           exhausted_message (List.length (address_attempts (address s)))
             (address s) (original_address s);
         failure_row := row_number s |}.
Proof.
  exact (loop_failures_exhausted unit Mock.down_service Mock.float_of_decimal
           manual_coordinates
           [ Shop "Corner Cafe" "4 Oak Rd, Bourbon County, KY" "4 Oak Rd" "Bourbon" 1 2 ]
           Mock.fresh
           (Failure "Corner Cafe" "4 Oak Rd" "4 Oak Rd, Bourbon County, KY"
              "All 2 geocoding attempts failed for: 4 Oak Rd" 2)
           ltac:(vm_compute; left; reflexivity)).
Defined.

Lemma loop_accounting_witness :
  successful_markers unit
    (add_coffee_shop_markers unit Mock.down_service Mock.float_of_decimal manual_coordinates
       [ Shop "Joe's Coffee" "121 Bethel Harvest Dr Nicholasville, KY 40356"
           "121 Bethel Harvest Dr Nicholasville, KY 40356" "Jessamine" 1 2;
         Shop "Bean Wagon" "" "" "Clark" 1 3;
         Shop "Corner Cafe" "4 Oak Rd, Bourbon County, KY" "4 Oak Rd" "Bourbon" 1 4 ]
       Mock.fresh)
  + List.length
      (failed_geocoding unit
         (add_coffee_shop_markers unit Mock.down_service Mock.float_of_decimal
            manual_coordinates
            [ Shop "Joe's Coffee" "121 Bethel Harvest Dr Nicholasville, KY 40356"
                "121 Bethel Harvest Dr Nicholasville, KY 40356" "Jessamine" 1 2;
              Shop "Bean Wagon" "" "" "Clark" 1 3;
              Shop "Corner Cafe" "4 Oak Rd, Bourbon County, KY" "4 Oak Rd" "Bourbon" 1 4 ]
            Mock.fresh))
  = List.length
      (List.filter has_address
         [ Shop "Joe's Coffee" "121 Bethel Harvest Dr Nicholasville, KY 40356"
             "121 Bethel Harvest Dr Nicholasville, KY 40356" "Jessamine" 1 2;
           Shop "Bean Wagon" "" "" "Clark" 1 3;
           Shop "Corner Cafe" "4 Oak Rd, Bourbon County, KY" "4 Oak Rd" "Bourbon" 1 4 ]).
Proof.
  exact (proj1 (proj2 (loop_accounting unit Mock.down_service Mock.float_of_decimal
                         manual_coordinates
                         [ Shop "Joe's Coffee" "121 Bethel Harvest Dr Nicholasville, KY 40356"
                             "121 Bethel Harvest Dr Nicholasville, KY 40356" "Jessamine" 1 2;
                           Shop "Bean Wagon" "" "" "Clark" 1 3;
                           Shop "Corner Cafe" "4 Oak Rd, Bourbon County, KY" "4 Oak Rd"
                             "Bourbon" 1 4 ]
                         Mock.fresh)
                  ltac:(vm_compute; reflexivity))).
Defined.

(** A service that answers with the text [nan] for coordinates stops the
    loop at the first record it is asked about: the request has been
    sent, no marker is placed, nothing is filed, and the second record is
    never looked at. *)
Example refused_marker_stops_loop :
  add_coffee_shop_markers unit Mock.nan_service Mock.float_of_decimal_or_nan
    manual_coordinates
    [ Shop "Corner Cafe" "4 Oak Rd, Bourbon County, KY" "4 Oak Rd" "Bourbon" 1 2;
      Shop "Joe's Coffee" "121 Bethel Harvest Dr Nicholasville, KY 40356"
        "121 Bethel Harvest Dr Nicholasville, KY 40356" "Jessamine" 1 3 ]
    Mock.fresh
  = {| successful_markers := 0; failed_geocoding := [];
       manual_overrides_used := 0; markers := [];
       outside := {| svc := tt; calls := [ "4 Oak Rd, Bourbon County, KY" ]; slept := 1 |};
       raised := true |}.
Proof.
  unfold add_coffee_shop_markers. cbn [fold_left].
  assert (E : marker_step unit Mock.nan_service Mock.float_of_decimal_or_nan
                manual_coordinates
                {| successful_markers := 0; failed_geocoding := [];
                   manual_overrides_used := 0; markers := []; outside := Mock.fresh;
                   raised := false |}
                (Shop "Corner Cafe" "4 Oak Rd, Bourbon County, KY" "4 Oak Rd" "Bourbon" 1 2)
              = {| successful_markers := 0; failed_geocoding := [];
                   manual_overrides_used := 0; markers := [];
                   outside := {| svc := tt; calls := [ "4 Oak Rd, Bourbon County, KY" ];
                                 slept := 1 |};
                   raised := true |}).
  { unfold marker_step. cbn [raised address Py.truthy negb].
    unfold resolve. cbn [address].
    replace (manual_coordinates !! "4 Oak Rd, Bourbon County, KY")
      with (@None coordinates) by (vm_compute; reflexivity).
    unfold geocode_address. cbn [Py.truthy negb].
    replace (address_attempts "4 Oak Rd, Bourbon County, KY")
      with [ "4 Oak Rd, Bourbon County, KY"; "4 Oak Road, Bourbon County, KY" ]
      by (vm_compute; reflexivity).
    reflexivity. }
  rewrite E. reflexivity.
Qed.

(** ** Ingestor and marker loop together *)

Lemma fetch_record_origin (rows : list (list string)) (r : shop) :
  In r (fetch_coffee_shops rows) ->
  (address r <> "" -> original_address r <> "") /\
  2 <= row_number r <= List.length rows.
Proof.
  destruct rows as [| header data]; [ intros [] | ].
  intros Hin. rewrite fetch_yielded in Hin.
  apply yielded_from_In in Hin as (k & row & Hk & Hin).
  assert (Hlt : k < List.length data) by (apply nth_error_Some; congruence).
  assert (Hlen : 3 <= List.length row).
  { destruct (Nat.lt_ge_cases (List.length row) 3) as [Hs | Hl]; [ | exact Hl ].
    rewrite (yielded_short_row _ _ Hs) in Hin. destruct Hin. }
  destruct (yielded_fields _ row r Hlen Hin) as (_ & Hrow & Hloc).
  split; [ | simpl; lia ].
  intros Hne Ho.
  destruct Hloc as [(_ & _ & Ho' & Ha) | (_ & _ & Ho' & Ha)];
    rewrite <- Ho', Ho in Ha; now apply Hne.
Qed.

(** X15.  For the records of a sheet, every entry of the failure list
    names a sheet row between 2 and the number of rows, has a non-empty
    original address, and its error is "All N geocoding attempts failed
    for: " followed by that original address, [N] being the number of
    candidates of the normalised address. *)
Theorem pipeline_failures
    (service_state : Type)
    (service : service_state -> string -> response * service_state)
    (float_of_string : string -> option float)
    (overrides : gmap string coordinates)
    (rows : list (list string)) (w : world service_state) (f : failure) :
  In f (failed_geocoding _
          (add_coffee_shop_markers service_state service float_of_string overrides
             (fetch_coffee_shops rows) w)) ->
  failure_original_address f <> "" /\
  failure_error f
  = "All " +:+ Py.str_of_nat (List.length (address_attempts (failure_formatted_address f)))
      +:+ " geocoding attempts failed for: " +:+ failure_original_address f /\
  2 <= failure_row f <= List.length rows.
Proof.
  intros H. unfold add_coffee_shop_markers in H.
  apply loop_failures_from in H as [[] | (s & Hs & Hne & _ & ->)].
  destruct (fetch_record_origin rows s Hs) as [Ho Hrow].
  specialize (Ho Hne). cbn [failure_original_address failure_error
                             failure_formatted_address failure_row].
  repeat split; try lia; auto.
  unfold exhausted_message, Py.or_else.
  destruct (original_address s); [ congruence | reflexivity ].
Qed.

Lemma pipeline_failures_witness :
  "4 Oak Rd" <> "" /\
  "All 2 geocoding attempts failed for: 4 Oak Rd"
  = "All " +:+ Py.str_of_nat (List.length (address_attempts "4 Oak Rd, Bourbon County, KY"))
      +:+ " geocoding attempts failed for: " +:+ "4 Oak Rd" /\
  2 <= 2 <= 2.
Proof.
  exact (pipeline_failures unit Mock.down_service Mock.float_of_decimal
           manual_coordinates
           [ ["Name"; "Address 1"; "Address 2"; "Phone"; "Web"; "County"];
             ["Corner Cafe"; "4 Oak Rd"; ""; ""; ""; "Bourbon"] ]
           Mock.fresh
           (Failure "Corner Cafe" "4 Oak Rd" "4 Oak Rd, Bourbon County, KY"
              "All 2 geocoding attempts failed for: 4 Oak Rd" 2)
           ltac:(vm_compute; left; reflexivity)).
Defined.

(** ** More on the normaliser *)

Lemma length_append (a b : string) :
  String.length (a +:+ b) = String.length a + String.length b.
Proof. induction a as [| c a IH]; simpl; [ reflexivity | now rewrite IH ]. Qed.

Lemma squeeze_append (a b : string) : squeeze (a +:+ b) = squeeze a +:+ squeeze b.
Proof.
  induction a as [| c a IH]; simpl; [ reflexivity | ].
  destruct (_ || _); simpl; now rewrite IH.
Qed.

Lemma drop_char_at (n : nat) (s : string) (c : ascii) :
  Py.char_at n s = Some c -> Py.drop n s = String c (Py.drop (S n) s).
Proof.
  unfold Py.char_at. revert s. induction n as [| n IH]; intros [| x s]; simpl; try discriminate.
  - now intros [= ->].
  - apply IH.
Qed.

Lemma char_at_None_drop (n : nat) (s : string) :
  Py.char_at n s = None -> Py.drop n s = "".
Proof.
  unfold Py.char_at. revert s. induction n as [| n IH]; intros [| x s]; simpl;
    try discriminate; auto.
Qed.

Lemma drop_empty_more (n m : nat) (s : string) :
  Py.drop n s = "" -> Py.drop (n + m) s = "".
Proof. intros H. rewrite <- drop_drop, H. now destruct m. Qed.

(** An iteration of the suite loop either leaves the string alone or
    inserts ", " or "," at one place, after which the token is preceded
    by ", ". *)
Lemma suite_comma_step_inserts (s pattern : string) :
  pattern <> "" ->
  suite_comma_step s (pattern, ", " +:+ pattern) = s \/
  exists j ins,
    (ins = ", " \/ ins = ",") /\
    suite_comma_step s (pattern, ", " +:+ pattern) = Py.take j s +:+ ins +:+ Py.drop j s /\
    occurs (", " +:+ pattern) (suite_comma_step s (pattern, ", " +:+ pattern)).
Proof.
  intros Hp. unfold suite_comma_step.
  destruct (_ && _); [ | now left ].
  destruct (Py.find pattern s) as [pos |] eqn:F; [ | now left ].
  destruct (0 <? pos) eqn:P; [ | now left ]. apply Nat.ltb_lt in P.
  assert (E : Py.drop pos s = pattern +:+ Py.drop (pos + String.length pattern) s).
  { rewrite <- drop_drop. apply startswith_split. now apply find_Some. }
  destruct (Py.char_at (pos - 1) s) as [cb |] eqn:C; [ | now left ].
  destruct (negb _).
  - right. exists pos, ", ". split; [ now left | ]. split.
    + rewrite E, !append_assoc. reflexivity.
    + exists (Py.take pos s), (Py.drop (pos + String.length pattern) s).
      now rewrite !append_assoc.
  - destruct (Ascii.eqb cb " ") eqn:Eb; [ | now left ].
    apply Ascii.eqb_eq in Eb. subst cb.
    right. exists (pos - 1), ",". split; [ now right | ]. split.
    + rewrite (drop_char_at _ _ _ C). replace (S (pos - 1)) with pos by lia.
      rewrite E, !append_assoc. reflexivity.
    + exists (Py.take (pos - 1) s), (Py.drop (pos + String.length pattern) s).
      now rewrite !append_assoc.
Qed.

Lemma suite_comma_step_squeeze (s pattern : string) :
  pattern <> "" ->
  squeeze (suite_comma_step s (pattern, ", " +:+ pattern)) = squeeze s /\
  String.length s <= String.length (suite_comma_step s (pattern, ", " +:+ pattern))
    <= String.length s + 2.
Proof.
  intros Hp.
  destruct (suite_comma_step_inserts s pattern Hp) as [-> | (j & ins & Hins & -> & _)];
    [ split; [ reflexivity | lia ] | ].
  assert (Hs : squeeze s = squeeze (Py.take j s) +:+ squeeze (Py.drop j s))
    by (rewrite <- squeeze_append; now rewrite take_drop).
  assert (Hl : String.length s = String.length (Py.take j s) + String.length (Py.drop j s))
    by (rewrite <- length_append; now rewrite take_drop).
  rewrite !squeeze_append, !length_append, Hs, Hl.
  destruct Hins as [-> | ->]; simpl; split; try reflexivity; lia.
Qed.

(** X16.  The suite rule of the normaliser never drops or changes a
    character of the address: it only inserts commas and spaces, at most
    two characters per suite token, twelve in all. *)
Theorem suite_commas_only_inserts (s : string) :
  squeeze (suite_commas s) = squeeze s /\
  String.length s <= String.length (suite_commas s) <= String.length s + 12.
Proof.
  unfold suite_commas, format_suite_patterns. cbn [fold_left].
  repeat match goal with
         | |- context [suite_comma_step ?t (?p, ?r)] =>
             lazymatch goal with
             | H : squeeze (suite_comma_step t (p, r)) = _ /\ _ |- _ => fail
             | _ =>
                 let H := fresh "H" in
                 pose proof (suite_comma_step_squeeze t p ltac:(discriminate)) as H;
                 change (", " +:+ p) with r in H
             end
         end.
  repeat match goal with H : _ /\ _ |- _ => destruct H end.
  split; [ congruence | lia ].
Qed.

(** X17.  The normaliser returns the empty string for the empty address
    only, and every other result mentions the state: "KY" occurs in it
    once letters are upper-cased. *)
Theorem format_address_mentions_state (address county : string) :
  (format_address address county = "" <-> address = "") /\
  (address <> "" ->
   Py.contains "KY" (Py.upper (format_address address county)) = true).
Proof.
  assert (H : address <> "" ->
              Py.contains "KY" (Py.upper (format_address address county)) = true).
  { intros Hne. apply contains_occurs. unfold format_address.
    destruct address; [ congruence | ]. cbn [Py.truthy negb].
    apply add_county_mentions_state, add_state_mentions_state. }
  split; [ split | exact H ].
  - intros E. destruct address as [| a rest]; [ reflexivity | ].
    specialize (H ltac:(discriminate)). rewrite E in H. discriminate.
  - intros ->. reflexivity.
Qed.

Lemma format_address_mentions_state_witness :
  Py.contains "KY" (Py.upper (format_address "12 Vine St, Winchester, Ky" "Clark")) = true.
Proof.
  exact (proj2 (format_address_mentions_state "12 Vine St, Winchester, Ky" "Clark")
           ltac:(discriminate)).
Defined.

(** X18.  After an iteration of the suite loop, a token that occurs in
    the string and does not start it is preceded by a comma: ", token" or
    ",token" occurs. *)
Theorem suite_comma_step_guards (s pattern : string) :
  pattern <> "" ->
  Py.contains pattern s = true ->
  Py.find pattern s <> Some 0 ->
  Py.contains (", " +:+ pattern) (suite_comma_step s (pattern, ", " +:+ pattern)) = true \/
  Py.contains ("," +:+ pattern) (suite_comma_step s (pattern, ", " +:+ pattern)) = true.
Proof.
  intros Hp Hc H0.
  destruct (suite_comma_step_inserts s pattern Hp) as [E | (j & ins & _ & _ & Hocc)];
    [ | left; now apply contains_occurs ].
  rewrite E. revert E. unfold suite_comma_step. rewrite Hc. cbn [andb].
  destruct (Py.contains (", " +:+ pattern) s); [ now left | ].
  destruct (Py.contains ("," +:+ pattern) s) eqn:G; [ now right | ].
  cbn [negb andb].
  destruct (Py.find pattern s) as [pos |] eqn:F;
    [ | unfold Py.contains in Hc; rewrite F in Hc; discriminate ].
  assert (Ed : Py.drop pos s = pattern +:+ Py.drop (pos + String.length pattern) s).
  { rewrite <- drop_drop. apply startswith_split. now apply find_Some. }
  destruct (0 <? pos) eqn:P; [ | apply Nat.ltb_ge in P; assert (pos = 0) by lia; congruence ].
  apply Nat.ltb_lt in P.
  destruct (Py.char_at (pos - 1) s) as [cb |] eqn:C.
  - assert (Hs : s = Py.take (pos - 1) s +:+ String cb pattern
                     +:+ Py.drop (pos + String.length pattern) s).
    { rewrite <- (take_drop (pos - 1) s) at 1. f_equal.
      rewrite (drop_char_at _ _ _ C). replace (S (pos - 1)) with pos by lia.
      now rewrite Ed. }
    destruct (Ascii.eqb cb ",") eqn:Ecomma.
    + apply Ascii.eqb_eq in Ecomma. subst cb.
      assert (Hocc : occurs ("," +:+ pattern) s) by (eexists _, _; exact Hs).
      apply contains_occurs in Hocc. congruence.
    + destruct (Ascii.eqb cb " ") eqn:Espace; cbn [orb negb]; intros E.
      * exfalso. apply (f_equal String.length) in E.
        pose proof (f_equal String.length Hs) as Hl.
        rewrite !length_append in E, Hl. simpl in E, Hl. lia.
      * exfalso. apply (f_equal String.length) in E.
        pose proof (f_equal String.length (take_drop pos s)) as Hl.
        rewrite Ed in Hl. rewrite !length_append in E, Hl. simpl in E. lia.
  - exfalso. apply char_at_None_drop in C.
    apply (drop_empty_more _ 1) in C. replace (pos - 1 + 1) with pos in C by lia.
    rewrite C in Ed. destruct pattern; [ congruence | discriminate ].
Qed.

Lemma suite_comma_step_guards_witness :
  Py.contains (", " +:+ "Suite ")
    (suite_comma_step "2100 Buena Vista Rd Suite 1" ("Suite ", ", " +:+ "Suite ")) = true \/
  Py.contains ("," +:+ "Suite ")
    (suite_comma_step "2100 Buena Vista Rd Suite 1" ("Suite ", ", " +:+ "Suite ")) = true.
Proof.
  exact (suite_comma_step_guards "2100 Buena Vista Rd Suite 1" "Suite "
           ltac:(discriminate) ltac:(reflexivity) ltac:(discriminate)).
Defined.

Lemma lstrip_suffix (s : string) : exists pre, s = pre +:+ Py.lstrip s.
Proof.
  induction s as [| c s [pre IH]]; simpl; [ now exists "" | ].
  destruct (Py.isspace c); [ | now exists "" ].
  exists (String c pre). simpl. now rewrite <- IH.
Qed.

Lemma rstrip_prefix (s : string) : exists post, s = Py.rstrip s +:+ post.
Proof.
  induction s as [| c s [post IH]]; simpl; [ now exists "" | ].
  destruct (Py.rstrip s) as [| r rs] eqn:R.
  - simpl in IH. subst post. destruct (Py.isspace c); [ now exists (String c s) | now exists s ].
  - exists post. simpl. now rewrite IH at 1.
Qed.

Lemma strip_occurs (s : string) : occurs (Py.strip s) s.
Proof.
  unfold Py.strip. destruct (lstrip_suffix s) as [pre Hpre].
  destruct (rstrip_prefix (Py.lstrip s)) as [post Hpost].
  exists pre, post. now rewrite <- Hpost.
Qed.

Lemma occurs_cons (p : string) (c : ascii) (s : string) :
  occurs p s -> occurs p (String c s).
Proof. intros (pre & post & ->). now exists (String c pre), post. Qed.

(** Taking out a character that is neither K nor Y does not make "KY"
    disappear. *)
Lemma occurs_KY_remove_char (a : string) (c : ascii) (b : string) :
  c <> "K"%char -> c <> "Y"%char ->
  occurs "KY" (a +:+ String c b) -> occurs "KY" (a +:+ b).
Proof.
  intros HK HY. induction a as [| x a IH]; simpl; intros (pre & post & E).
  - destruct pre as [| y pre]; simpl in E; [ congruence | ].
    injection E as _ ->. now exists pre, post.
  - destruct pre as [| y pre]; simpl in E.
    + injection E as -> E. destruct a as [| z a]; simpl in E; [ congruence | ].
      injection E as -> E. exists "", (a +:+ b). reflexivity.
    + injection E as _ E. apply occurs_cons. apply IH. now exists pre, post.
Qed.

Lemma suite_comma_step_no_state (s pattern : string) :
  pattern <> "" ->
  occurs "KY" (Py.upper (suite_comma_step s (pattern, ", " +:+ pattern))) ->
  occurs "KY" (Py.upper s).
Proof.
  intros Hp.
  destruct (suite_comma_step_inserts s pattern Hp) as [-> | (j & ins & Hins & -> & _)];
    [ auto | ].
  rewrite <- (take_drop j s) at 3. unfold Py.upper. rewrite !map_chars_append.
  destruct Hins as [-> | ->]; cbn [Py.map_chars]; intros H.
  - apply (occurs_KY_remove_char _ " "); [ discriminate | discriminate | ].
    apply (occurs_KY_remove_char _ ","); [ discriminate | discriminate | exact H ].
  - apply (occurs_KY_remove_char _ ","); [ discriminate | discriminate | exact H ].
Qed.

Lemma suite_commas_no_state (s : string) :
  occurs "KY" (Py.upper (suite_commas s)) -> occurs "KY" (Py.upper s).
Proof.
  unfold suite_commas, format_suite_patterns. cbn [fold_left]. intros H.
  repeat match type of H with
         | occurs _ (Py.upper (suite_comma_step _ (?p, _))) =>
             apply (suite_comma_step_no_state _ p ltac:(discriminate)) in H
         end.
  exact H.
Qed.

(** *** A second pass of the normaliser *)

Lemma suite_comma_step_inserts_before (s pattern : string) :
  pattern <> "" ->
  suite_comma_step s (pattern, ", " +:+ pattern) = s \/
  exists j ins,
    (ins = ", " \/ ins = ",") /\
    suite_comma_step s (pattern, ", " +:+ pattern) = Py.take j s +:+ ins +:+ Py.drop j s /\
    (first_char (Py.drop j s) = Some " "%char \/
     first_char (Py.drop j s) = first_char pattern).
Proof.
  intros Hp. unfold suite_comma_step.
  destruct (_ && _); [ | now left ].
  destruct (Py.find pattern s) as [pos |] eqn:F; [ | now left ].
  destruct (0 <? pos) eqn:P; [ | now left ]. apply Nat.ltb_lt in P.
  assert (E : Py.drop pos s = pattern +:+ Py.drop (pos + String.length pattern) s).
  { rewrite <- drop_drop. apply startswith_split. now apply find_Some. }
  destruct (Py.char_at (pos - 1) s) as [cb |] eqn:C; [ | now left ].
  destruct (negb _).
  - right. exists pos, ", ". split; [ now left | ]. split.
    + rewrite E, !append_assoc. reflexivity.
    + right. rewrite E. destruct pattern; [ congruence | reflexivity ].
  - destruct (Ascii.eqb cb " ") eqn:Eb; [ | now left ].
    apply Ascii.eqb_eq in Eb. subst cb.
    right. exists (pos - 1), ",". split; [ now right | ]. split.
    + rewrite (drop_char_at _ _ _ C). replace (S (pos - 1)) with pos by lia.
      rewrite E, !append_assoc. reflexivity.
    + left. now rewrite (drop_char_at _ _ _ C).
Qed.

(** Rule 2 either leaves a string alone or makes it longer. *)
Lemma suite_comma_step_fixed_or_longer (s pattern : string) :
  pattern <> "" ->
  suite_comma_step s (pattern, ", " +:+ pattern) = s \/
  String.length s < String.length (suite_comma_step s (pattern, ", " +:+ pattern)).
Proof.
  intros Hp.
  destruct (suite_comma_step_inserts_before s pattern Hp)
    as [E | (j & ins & Hins & E & _)]; [ now left | right ].
  rewrite E, !length_append.
  rewrite <- (take_drop j s) at 1. rewrite length_append.
  destruct Hins as [-> | ->]; simpl; lia.
Qed.

Lemma suite_loop_fixed_or_longer (patterns : list string) :
  Forall (fun p => p <> "") patterns ->
  forall s,
    fold_left suite_comma_step (map (fun p => (p, ", " +:+ p)) patterns) s = s \/
    String.length s
    < String.length
        (fold_left suite_comma_step (map (fun p => (p, ", " +:+ p)) patterns) s).
Proof.
  induction 1 as [| p patterns Hp _ IH]; intros s; cbn [map fold_left]; [ now left | ].
  destruct (suite_comma_step_fixed_or_longer s p Hp) as [E | L].
  - rewrite E. apply IH.
  - right. destruct (IH (suite_comma_step s (p, ", " +:+ p))) as [E' | L'].
    + now rewrite E'.
    + lia.
Qed.

Lemma suite_commas_fixed_or_longer (s : string) :
  suite_commas s = s \/ String.length s < String.length (suite_commas s).
Proof.
  apply (suite_loop_fixed_or_longer ["Suite "; "Ste "; "STE "; "Unit "; "UNIT "; "#"]).
  repeat constructor; discriminate.
Qed.

(** Putting text in front of a character other than Y does not make
    "KY" disappear. *)
Lemma occurs_KY_insert (a ins b : string) :
  first_char b <> Some "Y"%char ->
  occurs "KY" (a +:+ b) -> occurs "KY" (a +:+ ins +:+ b).
Proof.
  intros Hb. induction a as [| x a IH]; cbn [String.append]; intros (pre & post & E).
  - exists (ins +:+ pre), post. rewrite E. now rewrite append_assoc.
  - destruct pre as [| y pre]; cbn [String.append] in E.
    + injection E as -> E. destruct a as [| z a]; cbn [String.append] in E.
      * subst b. now contradiction Hb.
      * injection E as -> E. exists "", (a +:+ ins +:+ b). reflexivity.
    + injection E as _ E. apply occurs_cons. apply IH. now exists pre, post.
Qed.

Lemma first_char_upper (s : string) :
  first_char (Py.upper s) = option_map Py.upper_char (first_char s).
Proof. now destruct s. Qed.

Lemma suite_comma_step_keeps_state (s pattern : string) :
  pattern <> "" ->
  first_char (Py.upper pattern) <> Some "Y"%char ->
  occurs "KY" (Py.upper s) ->
  occurs "KY" (Py.upper (suite_comma_step s (pattern, ", " +:+ pattern))).
Proof.
  intros Hp HY H.
  destruct (suite_comma_step_inserts_before s pattern Hp)
    as [-> | (j & ins & Hins & -> & Hfirst)]; [ exact H | ].
  rewrite <- (take_drop j s) in H. unfold Py.upper in *.
  rewrite !map_chars_append. rewrite map_chars_append in H.
  assert (Hins' : Py.map_chars Py.upper_char ins = ins)
    by (destruct Hins as [-> | ->]; reflexivity).
  rewrite Hins'. apply occurs_KY_insert; [ | exact H ].
  fold (Py.upper (Py.drop j s)). rewrite first_char_upper.
  destruct Hfirst as [-> | ->].
  - discriminate.
  - fold (Py.upper pattern) in HY. now rewrite first_char_upper in HY.
Qed.

Lemma suite_commas_keeps_state (s : string) :
  occurs "KY" (Py.upper s) -> occurs "KY" (Py.upper (suite_commas s)).
Proof.
  unfold suite_commas, format_suite_patterns. cbn [fold_left]. intros H.
  repeat (match goal with
          | |- occurs _ (Py.upper (suite_comma_step _ (?p, _))) =>
              apply (suite_comma_step_keeps_state _ p);
              [ discriminate | vm_compute; discriminate | ]
          end).
  exact H.
Qed.

(** [replace] with a longer text makes a string longer wherever it finds
    something to replace. *)
Lemma replace_from_length (old new : string) (s : string) :
  old <> "" -> String.length old <= String.length new ->
  forall k, String.length s <= String.length (Py.replace_from old new k s) + k.
Proof.
  intros Ho Hlen.
  assert (Hpos : 1 <= String.length old) by (destruct old; [ congruence | simpl; lia ]).
  induction s as [| c s IH]; intros k; cbn [Py.replace_from String.length]; [ lia | ].
  destruct k as [| k].
  - destruct (Py.startswith old (String c s)).
    + rewrite length_append. specialize (IH (String.length old - 1)). lia.
    + cbn [String.length]. specialize (IH 0). lia.
  - specialize (IH k). lia.
Qed.

Lemma replace_longer (old new s : string) :
  old <> "" -> String.length old < String.length new ->
  Py.contains old s = true ->
  String.length s < String.length (Py.replace old new s).
Proof.
  intros Ho Hlen. unfold Py.contains, Py.replace.
  assert (Hpos : 1 <= String.length old) by (destruct old; [ congruence | simpl; lia ]).
  induction s as [| c s IH]; cbn [Py.find Py.replace_from String.length].
  - destruct old; [ congruence | discriminate ].
  - destruct (Py.startswith old (String c s)).
    + intros _. rewrite length_append.
      pose proof (replace_from_length old new s Ho ltac:(lia) (String.length old - 1)).
      lia.
    + destruct (Py.find old s); cbn [option_map]; [ | discriminate ].
      intros _. specialize (IH eq_refl). cbn [String.length]. lia.
Qed.

(** Rule 4 leaves a string alone in three cases exactly. *)
Lemma add_county_fixed (county s : string) :
  add_county county s = s <->
  county = "" \/
  Py.any_char Py.isdigit (Py.last_chars 10 s) = true \/
  Py.contains ", KY" s = false.
Proof.
  unfold add_county.
  destruct (Py.any_char Py.isdigit (Py.last_chars 10 s)); cbn [negb andb];
    [ split; auto | ].
  destruct county as [| c0 county']; cbn [Py.truthy]; [ split; auto | ].
  destruct (Py.contains ", KY" s) eqn:C; [ | split; auto ].
  split.
  - intros E.
    pose proof (replace_longer ", KY" (", " +:+ String c0 county' +:+ " County, KY") s
                  ltac:(discriminate)
                  ltac:(rewrite !length_append; simpl; lia) C) as L.
    rewrite E in L. lia.
  - intros [H | [H | H]]; discriminate.
Qed.

Lemma add_county_length (county s : string) :
  String.length s <= String.length (add_county county s).
Proof.
  unfold add_county.
  destruct (_ && _); [ | lia ].
  destruct (Py.contains ", KY" s); [ | lia ].
  pose proof (replace_from_length ", KY" (", " +:+ county +:+ " County, KY") s
                ltac:(discriminate)
                ltac:(rewrite !length_append; simpl; lia) 0).
  unfold Py.replace. lia.
Qed.

(** On a normalised address a second pass is rule 2 followed by rule 4. *)
Lemma format_address_second_pass (address county : string) :
  format_address (format_address address county) county
  = add_county county (suite_commas (format_address address county)).
Proof.
  destruct address as [| a address'].
  - cbn [format_address Py.truthy negb]. unfold add_county.
    destruct (_ && _); reflexivity.
  - set (b := format_address (String a address') county).
    assert (Hocc : occurs "KY" (Py.upper b)).
    { unfold b, format_address. cbn [Py.truthy negb].
      apply add_county_mentions_state, add_state_mentions_state. }
    unfold format_address at 1.
    destruct (negb (Py.truthy b)) eqn:Eb.
    + destruct b; [ | discriminate ].
      destruct Hocc as ([| x pre] & post & E); discriminate.
    + unfold b at 1.
      rewrite (trimmed_strip _ (format_address_trimmed (String a address') county)).
      fold b. f_equal.
      apply suite_commas_keeps_state, contains_occurs in Hocc.
      unfold add_state. now rewrite Hocc.
Qed.

(** C5, as amended.  Let [b] be the normalised form of a raw address.
    [b] is trimmed and, unless the raw address is empty, mentions the
    state, so a second pass neither trims it nor appends another ", KY":
    normalising [b] again is rule 2 followed by rule 4, applied to [b].
    The second pass returns [b] exactly when rule 2 finds nothing left to
    rewrite in [b] and rule 4 leaves [b] alone, which it does when no
    county is given, when one of the last ten characters of [b] is a
    digit, or when ", KY" does not occur in [b]; in every other case the
    second pass changes [b]. *)
Theorem format_address_idempotent_when (address county : string) :
  Py.strip (format_address address county) = format_address address county /\
  (address <> "" ->
   add_state (format_address address county) = format_address address county) /\
  format_address (format_address address county) county
  = add_county county (suite_commas (format_address address county)) /\
  (format_address (format_address address county) county
   = format_address address county
   <->
   suite_commas (format_address address county) = format_address address county /\
   (county = "" \/
    Py.any_char Py.isdigit (Py.last_chars 10 (format_address address county)) = true \/
    Py.contains ", KY" (format_address address county) = false)).
Proof.
  split; [ apply trimmed_strip, format_address_trimmed | ].
  split; [ apply add_state_format_address | ].
  split; [ apply format_address_second_pass | ].
  rewrite format_address_second_pass.
  set (b := format_address address county).
  split.
  - intros E.
    pose proof (add_county_length county (suite_commas b)) as L.
    rewrite E in L.
    destruct (suite_commas_fixed_or_longer b) as [Hs | Hl]; [ | lia ].
    split; [ exact Hs | ].
    rewrite Hs in E. now apply add_county_fixed.
  - intros [Hs Hc]. rewrite Hs. now apply add_county_fixed.
Qed.

Lemma format_address_idempotent_when_witness :
  format_address (format_address "  412 Rose St Suite 3, Lexington 40508 " "Fayette") "Fayette"
  = format_address "  412 Rose St Suite 3, Lexington 40508 " "Fayette".
Proof.
  refine (proj2 (proj2 (proj2 (proj2 (format_address_idempotent_when
                          "  412 Rose St Suite 3, Lexington 40508 " "Fayette"))))
            (conj _ (or_intror (or_introl _))));
    vm_compute; reflexivity.
Defined.

(** C5 fails as stated: a second pass inserts the county again when the
    address has no ZIP code and ", KY" occurs in it, and rule 2 can fire
    again where the first pass turned a guarded "Suite " into "Suite,". *)
Lemma format_address_idempotent_counterexample :
  format_address "100 Main St" "Fayette" = "100 Main St, Fayette County, KY" /\
  format_address (format_address "100 Main St" "Fayette") "Fayette"
  = "100 Main St, Fayette County, Fayette County, KY" /\
  format_address "101 Main St, Suite #4 and Suite 5, Paris, KY 40361" ""
  = "101 Main St, Suite, #4 and Suite 5, Paris, KY 40361" /\
  format_address (format_address "101 Main St, Suite #4 and Suite 5, Paris, KY 40361" "") ""
  = "101 Main St, Suite, #4 and, Suite 5, Paris, KY 40361".
Proof. repeat split; vm_compute; reflexivity. Qed.

(** Without a comma before the state rule 4 has nowhere to insert the
    county, on the first pass and on the second. *)
Example format_address_no_comma_before_state :
  format_address "100 Main St KY" "Fayette" = "100 Main St KY" /\
  format_address (format_address "100 Main St KY" "Fayette") "Fayette" = "100 Main St KY".
Proof. split; vm_compute; reflexivity. Qed.

Lemma startswith_state_suffix (f : string) :
  Py.startswith ", KY" (f +:+ ", KY") = true -> f = "" \/ occurs "KY" f.
Proof.
  destruct f as [| c1 [| c2 [| c3 [| c4 f]]]]; [ now left | | | | ];
    cbn [Py.startswith String.append]; intros H;
    repeat match type of H with
           | (_ && _) = true => let H1 := fresh "H" in apply andb_true_iff in H as [H1 H]
           end;
    repeat match goal with
           | H : Ascii.eqb _ _ = true |- _ => apply Ascii.eqb_eq in H
           end;
    try discriminate.
  subst. right. exists ", ", f. reflexivity.
Qed.

(** Without "KY" in [f], the only ", KY" of [f ++ ", KY"] is the one at
    the end, and that is where the county goes. *)
Lemma replace_state_suffix (new f : string) :
  ~ occurs "KY" f ->
  Py.replace ", KY" new (f +:+ ", KY") = f +:+ new.
Proof.
  unfold Py.replace. induction f as [| c f IH]; intros Hno.
  - simpl. now rewrite append_nil_r.
  - cbn [String.append Py.replace_from].
    destruct (Py.startswith ", KY" (String c (f +:+ ", KY"))) eqn:E.
    + apply (startswith_state_suffix (String c f)) in E as [E | E];
        [ discriminate | contradiction ].
    + f_equal. apply IH. intros H. apply Hno. now apply occurs_cons.
Qed.

(** X19.  For a non-empty address that does not mention the state ("KY"
    in any case of letters), the normaliser appends ", KY" once, to the
    trimmed address with its suite commas; and when a county is given and
    there is no digit among the last ten characters, the county goes
    between the two: the result ends in ", <county> County, KY". *)
Theorem state_appended_once (address county : string) :
  address <> "" ->
  Py.contains "KY" (Py.upper address) = false ->
  format_address address "" = suite_commas (Py.strip address) +:+ ", KY" /\
  (county <> "" ->
   Py.any_char Py.isdigit
     (Py.last_chars 10 (suite_commas (Py.strip address) +:+ ", KY")) = false ->
   format_address address county
   = suite_commas (Py.strip address) +:+ ", " +:+ county +:+ " County, KY").
Proof.
  intros Hne Hno.
  set (f1 := suite_commas (Py.strip address)).
  assert (Habs : ~ occurs "KY" (Py.upper f1)).
  { intros H. apply suite_commas_no_state in H.
    assert (H' : occurs "KY" (Py.upper address))
      by (apply (occurs_trans _ _ _ H), occurs_upper, strip_occurs).
    apply contains_occurs in H'. congruence. }
  assert (Hstate : add_state f1 = f1 +:+ ", KY").
  { unfold add_state.
    destruct (Py.contains "KY" (Py.upper f1)) eqn:K;
      [ apply contains_occurs in K; contradiction | ].
    destruct (Py.contains "KENTUCKY" (Py.upper f1)) eqn:K'; [ | reflexivity ].
    exfalso. apply Habs. apply contains_occurs in K'.
    apply (occurs_trans _ "KENTUCKY"); [ | exact K' ]. exists "KENTUC", "". reflexivity. }
  unfold format_address. destruct address as [| a rest]; [ congruence | ].
  cbn [Py.truthy negb]. fold f1. rewrite Hstate. split.
  - unfold add_county. now rewrite andb_false_r.
  - intros Hc Hdigit. unfold add_county. rewrite Hdigit.
    destruct county as [| c county']; [ congruence | ]. cbn [Py.truthy negb andb].
    assert (Hin : Py.contains ", KY" (f1 +:+ ", KY") = true).
    { apply contains_occurs. exists f1, "". reflexivity. }
    rewrite Hin. rewrite replace_state_suffix.
    + reflexivity.
    + intros H. apply Habs. apply occurs_upper in H. exact H.
Qed.

Lemma state_appended_once_witness :
  format_address " 88 Elm St Suite 4, Midway " ""
  = suite_commas (Py.strip " 88 Elm St Suite 4, Midway ") +:+ ", KY" /\
  ("Woodford" <> "" ->
   Py.any_char Py.isdigit
     (Py.last_chars 10 (suite_commas (Py.strip " 88 Elm St Suite 4, Midway ") +:+ ", KY"))
   = false ->
   format_address " 88 Elm St Suite 4, Midway " "Woodford"
   = suite_commas (Py.strip " 88 Elm St Suite 4, Midway ")
       +:+ ", " +:+ "Woodford" +:+ " County, KY").
Proof.
  exact (state_appended_once " 88 Elm St Suite 4, Midway " "Woodford"
           ltac:(discriminate) ltac:(reflexivity)).
Defined.

Example state_appended_once_ex :
  format_address " 88 Elm St Suite 4, Midway " "Woodford"
  = "88 Elm St, Suite 4, Midway, Woodford County, KY".
Proof. reflexivity. Qed.

(** ** The report lists every failure once, and the loop keeps the order *)

Lemma file_failure_Permutation (f : failure) (groups : list (string * list failure)) :
  Permutation (flat_map snd (file_failure f groups)) (flat_map snd groups ++ [f]).
Proof.
  induction groups as [| [k fs] groups IH]; cbn [file_failure flat_map snd app].
  - reflexivity.
  - destruct (String.eqb k (error_key (failure_error f))); cbn [flat_map snd].
    + rewrite <- !app_assoc. apply Permutation_app_head, Permutation_app_comm.
    + rewrite <- app_assoc. apply Permutation_app_head, IH.
Qed.

Lemma report_lines_of_groups (groups : list (string * list failure)) :
  flat_map (fun g => map (fun f => (failure_row f, failure_name f)) (snd g)) groups
  = map (fun f => (failure_row f, failure_name f)) (flat_map snd groups).
Proof.
  induction groups as [| g groups IH]; simpl; [ reflexivity | ].
  now rewrite map_app, IH.
Qed.

(** X20.  The failure report has one line per failure: its lines are the
    row-and-name pairs of the failures filed, each once, rearranged by
    group. *)
Theorem report_rows_Permutation (failed : list failure) :
  Permutation (report_rows failed)
    (map (fun f => (failure_row f, failure_name f)) failed) /\
  List.length (report_rows failed) = List.length failed.
Proof.
  assert (H : Permutation (flat_map snd (error_types failed)) failed).
  { induction failed as [| f failed IH] using rev_ind; [ reflexivity | ].
    rewrite error_types_snoc, file_failure_Permutation.
    now apply Permutation_app_tail. }
  unfold report_rows. rewrite report_lines_of_groups. split.
  - now apply Permutation_map.
  - rewrite length_map. now apply Permutation_length.
Qed.

Section LoopOrder.

Variable service_state : Type.
Variable service : service_state -> string -> response * service_state.
Variable float_of_string : string -> option float.
Variable overrides : gmap string coordinates.

#[local] Abbreviation World := (world service_state).
#[local] Abbreviation LoopState := (loop_state service_state).
#[local] Abbreviation step := (marker_step service_state service float_of_string overrides).
#[local] Abbreviation run_loop :=
  (add_coffee_shop_markers service_state service float_of_string overrides).

Lemma loop_appends_in_order (shops : list shop) :
  forall st : LoopState,
  exists placed filed,
    markers _ (fold_left step shops st) = markers _ st ++ placed /\
    failed_geocoding _ (fold_left step shops st) = failed_geocoding _ st ++ filed /\
    sublist (map marker_name placed) (map name shops) /\
    sublist (map failure_name filed) (map name shops).
Proof.
  induction shops as [| s shops IH]; intros st; cbn [fold_left map].
  - exists [], []. rewrite !app_nil_r. repeat split; constructor.
  - destruct (IH (step st s)) as (placed & filed & Hm & Hf & Sm & Sf).
    rewrite Hm, Hf.
    destruct (marker_step_cases _ service float_of_string overrides st s)
      as [[_ E] | [(_ & _ & E) | [(_ & _ & c & _ & E)
         | [(_ & _ & _ & c & w' & _ & E) | (_ & _ & _ & e & w' & _ & E)]]]];
      rewrite E; try (destruct (locatable c)); cbn [markers failed_geocoding].
    + exists placed, filed. repeat split; auto; now apply sublist_cons.
    + exists placed, filed. repeat split; auto; now apply sublist_cons.
    + exists (Marker (name s) c :: placed), filed. rewrite <- app_assoc.
      repeat split; auto; [ now apply sublist_skip | now apply sublist_cons ].
    + exists placed, filed. repeat split; auto; now apply sublist_cons.
    + exists (Marker (name s) c :: placed), filed. rewrite <- app_assoc.
      repeat split; auto; [ now apply sublist_skip | now apply sublist_cons ].
    + exists placed, filed. repeat split; auto; now apply sublist_cons.
    + eexists placed, (_ :: filed). rewrite <- app_assoc.
      repeat split; auto; [ now apply sublist_cons | now apply sublist_skip ].
Qed.

(** X21.  The loop places its markers and files its failures in the order
    of the records: the names of the markers, and the names of the
    failures, each form a subsequence of the names of the records. *)
Theorem loop_keeps_order (shops : list shop) (w : World) :
  sublist (map marker_name (markers _ (run_loop shops w))) (map name shops) /\
  sublist (map failure_name (failed_geocoding _ (run_loop shops w))) (map name shops).
Proof.
  unfold add_coffee_shop_markers.
  destruct (loop_appends_in_order shops
              {| successful_markers := 0; failed_geocoding := [];
                 manual_overrides_used := 0; markers := []; outside := w;
                 raised := false |})
    as (placed & filed & -> & -> & Sm & Sf).
  now split.
Qed.

End LoopOrder.

Lemma loop_requests_witness :
  In "4 Oak Road, Bourbon County, KY" (calls unit Mock.fresh) \/
  exists s,
    In s [ Shop "Joe's Coffee" "121 Bethel Harvest Dr Nicholasville, KY 40356"
             "121 Bethel Harvest Dr Nicholasville, KY 40356" "Jessamine" 1 2;
           Shop "Corner Cafe" "4 Oak Rd, Bourbon County, KY" "4 Oak Rd" "Bourbon" 1 3 ] /\
    address s <> "" /\ manual_coordinates !! address s = None /\
    In "4 Oak Road, Bourbon County, KY" (address_attempts (address s)).
Proof.
  exact (proj1 (loop_requests unit Mock.down_service Mock.float_of_decimal
                  manual_coordinates
                  [ Shop "Joe's Coffee" "121 Bethel Harvest Dr Nicholasville, KY 40356"
                      "121 Bethel Harvest Dr Nicholasville, KY 40356" "Jessamine" 1 2;
                    Shop "Corner Cafe" "4 Oak Rd, Bourbon County, KY" "4 Oak Rd" "Bourbon" 1 3 ]
                  Mock.fresh)
               "4 Oak Road, Bourbon County, KY"
               ltac:(vm_compute; right; left; reflexivity)).
Defined.
